(** * Personal AI Assistant: capture session, waveform finalizer,
      transcription pipeline and transcript store of [main.py]

    A shallow embedding of the audio / transcription core of [main.py].
    Samples are IEEE-754 binary32 values ([dtype="float32"]), modelled with
    the Standard Library's [spec_float] at precision 24 and maximal exponent
    128; the module-level globals, the Tk variables and the two directories
    form one record [World] that the handlers thread through a state and
    exception monad. *)

From Stdlib Require Import ZArith Lia Bool Ascii.
From Stdlib Require Import Floats.SpecFloat.
From stdpp Require Import base option list strings gmap sorting.

Local Open Scope Z_scope.

(** ** binary32 arithmetic, as numpy performs it on [float32] arrays *)

Module F32.

Definition prec : Z := 24.
Definition emax : Z := 128.

Definition div : spec_float -> spec_float -> spec_float := SFdiv prec emax.
Definition mul : spec_float -> spec_float -> spec_float := SFmul prec emax.
Definition add : spec_float -> spec_float -> spec_float := SFadd prec emax.
Definition sqrt : spec_float -> spec_float := SFsqrt prec emax.
Definition ltb : spec_float -> spec_float -> bool := SFltb.

(** An integer converted to [float32] (the integers used are exact). *)
Definition of_Z (z : Z) : spec_float := binary_normalize prec emax z 0 false.

Definition zero : spec_float := S754_zero false.
Definition one : spec_float := of_Z 1.

Definition is_nan (x : spec_float) : bool :=
  match x with S754_nan => true | _ => false end.

Definition is_zero (x : spec_float) : bool :=
  match x with S754_zero _ => true | _ => false end.

(** [min(a, 1.0)] of Python: the second argument is taken only when it
    compares smaller. *)
Definition py_min (a b : spec_float) : spec_float :=
  if ltb b a then b else a.

(** A sample that the audio device can deliver: a well-formed binary32
    number that is neither an infinity nor a NaN. *)
Definition finite (x : spec_float) : bool :=
  match x with
  | S754_zero _ => true
  | S754_finite _ m e => bounded prec emax m e
  | _ => false
  end.

(** [np.maximum]: a NaN operand wins, otherwise the larger one. *)
Definition maximum (a b : spec_float) : spec_float :=
  if is_nan a then a else if is_nan b then b
  else if ltb a b then b else a.

(** The exact value of a finite number as a fraction [n / d], [0 < d]. *)
Definition ratio (x : spec_float) : option (Z * Z) :=
  match x with
  | S754_zero _ => Some (0, 1)
  | S754_finite s m e =>
      let n := if s then Z.neg m else Z.pos m in
      Some (if 0 <=? e then (n * 2 ^ e, 1) else (n, 2 ^ (- e)))
  | _ => None
  end.

(** The integer part of a finite value, rounded toward zero. *)
Definition trunc (x : spec_float) : option Z :=
  match ratio x with
  | Some (n, d) => Some (Z.quot n d)
  | None => None
  end.

End F32.

(** ** Waveform finalizer: lines 88-90 of [stop_record] *)

(** One element of the [int16] array handed to [scipy.io.wavfile.write].
    [astype(np.int16)] is a C conversion from [float] to [short]: it drops
    the fractional part, and has no defined result for a NaN, an infinity or
    a value outside the range of [short]. *)
Inductive int16 : Type :=
  | I16 (z : Z)
  | I16_undefined.

Definition astype_int16 (x : spec_float) : int16 :=
  match F32.trunc x with
  | Some z => if (-32768 <=? z) && (z <=? 32767) then I16 z else I16_undefined
  | None => I16_undefined
  end.

Abbreviation Block := (list spec_float).

(** [np.concatenate(buffer, axis=0)] on blocks of shape [(n, 1)]. *)
Definition np_concatenate (buffer : list Block) : list spec_float :=
  concat buffer.

(** [np.max(np.abs(audio))]; [None] stands for the [ValueError] numpy raises
    on a zero-size array. *)
Definition np_max_abs (audio : list spec_float) : option spec_float :=
  match audio with
  | [] => None
  | x :: xs => Some (foldl F32.maximum (SFabs x) (SFabs <$> xs))
  end.

(** [audio / peak], then [(audio * 32767).astype(np.int16)]. *)
Definition normalize (peak : spec_float) (audio : list spec_float) :
    list spec_float :=
  (fun x => F32.div x peak) <$> audio.

Definition quantize (audio : list spec_float) : list int16 :=
  (fun x => astype_int16 (F32.mul x (F32.of_Z 32767))) <$> audio.

(** The array written to [record.wav], or [None] when [np.max] raises. *)
Definition finalize (buffer : list Block) : option (list int16) :=
  let audio := np_concatenate buffer in
  peak ← np_max_abs audio;
  Some (quantize (normalize peak audio)).

(** ** The level meter: the body of [callback] *)

(** [np.sqrt(np.mean(indata**2))] on a [float32] block: the squares are
    summed left to right (the order numpy uses on short blocks) and divided
    by the number of samples. *)
Definition np_mean (xs : list spec_float) : spec_float :=
  F32.div (foldl F32.add F32.zero xs) (F32.of_Z (Z.of_nat (length xs))).

Definition rms (indata : Block) : spec_float :=
  F32.sqrt (np_mean ((fun x => F32.mul x x) <$> indata)).

(** [min(rms * 300, 1.0)]. *)
Definition level_of (indata : Block) : spec_float :=
  F32.py_min (F32.mul (rms indata) (F32.of_Z 300)) F32.one.

(** ** Transcript identifiers: [strftime("%Y%m%d_%H%M%S.txt")] *)

Record DateTime : Type := {
  year : nat; month : nat; day : nat;
  hour : nat; minute : nat; second : nat
}.

Definition digit (n : nat) : ascii := Ascii.ascii_of_nat (48 + n mod 10).

Definition pad2 (n : nat) (rest : string) : string :=
  String (digit (n / 10)) (String (digit n) rest).

(** [%Y] written with four digits (years 1000 to 9999 on every platform). *)
Definition pad4 (n : nat) (rest : string) : string :=
  String (digit (n / 1000)) (String (digit (n / 100)) (pad2 n rest)).

Definition fname_of (t : DateTime) : string :=
  pad4 (year t) (pad2 (month t) (pad2 (day t)
    (String "_" (pad2 (hour t) (pad2 (minute t) (pad2 (second t) ".txt")))))).

(** ** Listing: [sorted(os.listdir(TRANSCRIPT_DIR), reverse=True)] *)

(** Python compares [str] values by code point, which on the byte strings
    used here is [String.leb]. *)
Definition py_sorted_reverse (names : list string) : list string :=
  merge_sort (flip String.le) names.

Definition os_listdir {A} (dir : gmap string A) : list string :=
  (map_to_list dir).*1.

(** [files[:10]] of [refresh_history]. *)
Definition list_history (dir : gmap string string) : list string :=
  take 10 (py_sorted_reverse (os_listdir dir)).

(** ** The state the handlers share *)

(** A [sounddevice.InputStream]: opened by its constructor, running between
    [start()] and [stop()], released by [close()]. *)
Inductive StreamState : Type :=
  | StreamInactive
  | StreamActive
  | StreamClosed.

Definition stream_open (s : StreamState) : bool :=
  match s with StreamClosed => false | _ => true end.

(** The array and sample rate [scipy.io.wavfile.write] stores. *)
Record Wav : Type := { rate : Z; samples : list int16 }.

(** The keyword arguments of [model.transcribe]. *)
Record Args : Type := {
  task : string;
  condition_on_previous_text : bool;
  language_arg : option string
}.

Inductive Exn : Type :=
  | EngineError (msg : string)
  | ValueError
  | AttributeError
  | FileNotFoundError
  | IsADirectoryError
  | PortAudioError.

(** What can reach the handlers: the Tk events bound in [main.py], the
    [root.after] timer of [wave_loop], and a block delivered by the audio
    thread of a running stream.  Whether [sd.InputStream(...)] opens the
    input device is not the program's to decide: a press of the button is
    [ButtonPress1] when the device opens and [ButtonPress1_unavailable] when
    it does not (no input device, or one that cannot be opened). *)
Inductive Stimulus : Type :=
  | ButtonPress1
  | ButtonRelease1
  | DoubleButton1 (sel : option nat)
  | WaveTimer
  | AudioCallback (indata : Block)
  | ButtonPress1_unavailable.

(** One call of the recognition engine: the file it was given, its
    arguments, and how many activations of [transcribe] were then running. *)
Record EngineCall : Type := {
  call_audio : option Wav;
  call_args : Args;
  call_depth : nat
}.

(** The module-level globals ([recording], [buffer], [stream], [level]), the
    streams of the audio device, the Tk variables and widgets, the two
    directories and the wall clock.  A directory maps the names of its files
    to what they hold: [transcripts], the characters of each text file.
    [pending] holds what [root.update()] will find waiting, in order.  [clock] gives the successive readings of
    [datetime.now()], [ticks] counts the readings taken.  [jobs] is the
    number of activations of [transcribe] entered and not yet left: the
    source keeps no such variable, it is the depth of the call stack. *)
Record World : Type := {
  recording : bool;
  buffer : list Block;
  stream : option nat;
  level : spec_float;
  streams : list StreamState;
  status : string;
  language : string;
  canvas : option spec_float;
  history : list string;
  windows : list string;
  pending : list Stimulus;
  reported : list Exn;
  recordings : gmap string Wav;
  transcripts : gmap string string;
  clock : nat -> DateTime;
  ticks : nat;
  jobs : nat;
  engine_calls : list EngineCall
}.

Definition set_recording (v : bool) (w : World) : World :=
  {| recording := v; buffer := buffer w; stream := stream w; level := level
  w; streams := streams w; status := status w; language := language w;
  canvas := canvas w; history := history w; windows := windows w; pending :=
  pending w; reported := reported w; recordings := recordings w; transcripts
  := transcripts w; clock := clock w; ticks := ticks w; jobs := jobs w;
  engine_calls := engine_calls w |}.

Definition set_buffer (v : list Block) (w : World) : World :=
  {| recording := recording w; buffer := v; stream := stream w; level :=
  level w; streams := streams w; status := status w; language := language w;
  canvas := canvas w; history := history w; windows := windows w; pending :=
  pending w; reported := reported w; recordings := recordings w; transcripts
  := transcripts w; clock := clock w; ticks := ticks w; jobs := jobs w;
  engine_calls := engine_calls w |}.

Definition set_stream (v : option nat) (w : World) : World :=
  {| recording := recording w; buffer := buffer w; stream := v; level :=
  level w; streams := streams w; status := status w; language := language w;
  canvas := canvas w; history := history w; windows := windows w; pending :=
  pending w; reported := reported w; recordings := recordings w; transcripts
  := transcripts w; clock := clock w; ticks := ticks w; jobs := jobs w;
  engine_calls := engine_calls w |}.

Definition set_level (v : spec_float) (w : World) : World :=
  {| recording := recording w; buffer := buffer w; stream := stream w; level
  := v; streams := streams w; status := status w; language := language w;
  canvas := canvas w; history := history w; windows := windows w; pending :=
  pending w; reported := reported w; recordings := recordings w; transcripts
  := transcripts w; clock := clock w; ticks := ticks w; jobs := jobs w;
  engine_calls := engine_calls w |}.

Definition set_streams (v : list StreamState) (w : World) : World :=
  {| recording := recording w; buffer := buffer w; stream := stream w; level
  := level w; streams := v; status := status w; language := language w;
  canvas := canvas w; history := history w; windows := windows w; pending :=
  pending w; reported := reported w; recordings := recordings w; transcripts
  := transcripts w; clock := clock w; ticks := ticks w; jobs := jobs w;
  engine_calls := engine_calls w |}.

Definition set_status (v : string) (w : World) : World :=
  {| recording := recording w; buffer := buffer w; stream := stream w; level
  := level w; streams := streams w; status := v; language := language w;
  canvas := canvas w; history := history w; windows := windows w; pending :=
  pending w; reported := reported w; recordings := recordings w; transcripts
  := transcripts w; clock := clock w; ticks := ticks w; jobs := jobs w;
  engine_calls := engine_calls w |}.

Definition set_canvas (v : option spec_float) (w : World) : World :=
  {| recording := recording w; buffer := buffer w; stream := stream w; level
  := level w; streams := streams w; status := status w; language := language
  w; canvas := v; history := history w; windows := windows w; pending :=
  pending w; reported := reported w; recordings := recordings w; transcripts
  := transcripts w; clock := clock w; ticks := ticks w; jobs := jobs w;
  engine_calls := engine_calls w |}.

Definition set_history (v : list string) (w : World) : World :=
  {| recording := recording w; buffer := buffer w; stream := stream w; level
  := level w; streams := streams w; status := status w; language := language
  w; canvas := canvas w; history := v; windows := windows w; pending :=
  pending w; reported := reported w; recordings := recordings w; transcripts
  := transcripts w; clock := clock w; ticks := ticks w; jobs := jobs w;
  engine_calls := engine_calls w |}.

Definition set_windows (v : list string) (w : World) : World :=
  {| recording := recording w; buffer := buffer w; stream := stream w; level
  := level w; streams := streams w; status := status w; language := language
  w; canvas := canvas w; history := history w; windows := v; pending :=
  pending w; reported := reported w; recordings := recordings w; transcripts
  := transcripts w; clock := clock w; ticks := ticks w; jobs := jobs w;
  engine_calls := engine_calls w |}.

Definition set_pending (v : list Stimulus) (w : World) : World :=
  {| recording := recording w; buffer := buffer w; stream := stream w; level
  := level w; streams := streams w; status := status w; language := language
  w; canvas := canvas w; history := history w; windows := windows w; pending
  := v; reported := reported w; recordings := recordings w; transcripts :=
  transcripts w; clock := clock w; ticks := ticks w; jobs := jobs w;
  engine_calls := engine_calls w |}.

Definition set_reported (v : list Exn) (w : World) : World :=
  {| recording := recording w; buffer := buffer w; stream := stream w; level
  := level w; streams := streams w; status := status w; language := language
  w; canvas := canvas w; history := history w; windows := windows w; pending
  := pending w; reported := v; recordings := recordings w; transcripts :=
  transcripts w; clock := clock w; ticks := ticks w; jobs := jobs w;
  engine_calls := engine_calls w |}.

Definition set_recordings (v : gmap string Wav) (w : World) : World :=
  {| recording := recording w; buffer := buffer w; stream := stream w; level
  := level w; streams := streams w; status := status w; language := language
  w; canvas := canvas w; history := history w; windows := windows w; pending
  := pending w; reported := reported w; recordings := v; transcripts :=
  transcripts w; clock := clock w; ticks := ticks w; jobs := jobs w;
  engine_calls := engine_calls w |}.

Definition set_transcripts (v : gmap string string) (w : World) : World :=
  {| recording := recording w; buffer := buffer w; stream := stream w; level
  := level w; streams := streams w; status := status w; language := language
  w; canvas := canvas w; history := history w; windows := windows w; pending
  := pending w; reported := reported w; recordings := recordings w;
  transcripts := v; clock := clock w; ticks := ticks w; jobs := jobs w;
  engine_calls := engine_calls w |}.

Definition set_ticks (v : nat) (w : World) : World :=
  {| recording := recording w; buffer := buffer w; stream := stream w; level
  := level w; streams := streams w; status := status w; language := language
  w; canvas := canvas w; history := history w; windows := windows w; pending
  := pending w; reported := reported w; recordings := recordings w;
  transcripts := transcripts w; clock := clock w; ticks := v; jobs := jobs
  w; engine_calls := engine_calls w |}.

Definition set_jobs (v : nat) (w : World) : World :=
  {| recording := recording w; buffer := buffer w; stream := stream w; level
  := level w; streams := streams w; status := status w; language := language
  w; canvas := canvas w; history := history w; windows := windows w; pending
  := pending w; reported := reported w; recordings := recordings w;
  transcripts := transcripts w; clock := clock w; ticks := ticks w; jobs :=
  v; engine_calls := engine_calls w |}.

Definition set_engine_calls (v : list EngineCall) (w : World) : World :=
  {| recording := recording w; buffer := buffer w; stream := stream w; level
  := level w; streams := streams w; status := status w; language := language
  w; canvas := canvas w; history := history w; windows := windows w; pending
  := pending w; reported := reported w; recordings := recordings w;
  transcripts := transcripts w; clock := clock w; ticks := ticks w; jobs :=
  jobs w; engine_calls := v |}.

(** ** Handlers as state transformers that may raise *)

Inductive Outcome (A : Type) : Type :=
  | Returned (a : A)
  | Raised (e : Exn).
Arguments Returned {A} a.
Arguments Raised {A} e.

Definition M (A : Type) : Type := World -> Outcome A * World.

Definition ret {A} (a : A) : M A := fun w => (Returned a, w).

Definition bind {A B} (c : M A) (k : A -> M B) : M B :=
  fun w =>
    match c w with
    | (Returned a, w') => k a w'
    | (Raised e, w') => (Raised e, w')
    end.

Definition raise {A} (e : Exn) : M A := fun w => (Raised e, w).
Definition get {A} (f : World -> A) : M A := fun w => (Returned (f w), w).
Definition modify (f : World -> World) : M unit := fun w => (Returned tt, f w).

Declare Scope M_scope.
Delimit Scope M_scope with M.
Bind Scope M_scope with M.
Notation "x <- c ;; k" := (bind c (fun x => k))
  (at level 100, c at next level, right associativity) : M_scope.
Notation "c ;; k" := (bind c (fun _ => k))
  (at level 100, right associativity) : M_scope.
Local Open Scope M_scope.

(** *** The audio device *)

(** [sd.InputStream(samplerate=fs, channels=1, dtype="float32", callback=...)]
    opens a stream and returns it when the input device can be opened
    ([opens]), and raises [PortAudioError] when it cannot. *)
Definition sd_InputStream (opens : bool) : M nat :=
  fun w =>
    if opens
    then (Returned (length (streams w)),
          set_streams (streams w ++ [StreamInactive]) w)
    else (Raised PortAudioError, w).

Definition stream_alter (f : StreamState -> StreamState) (h : nat) : M unit :=
  modify (fun w => set_streams (alter f h (streams w)) w).

Definition stream_start : nat -> M unit :=
  stream_alter (fun s => match s with StreamInactive => StreamActive | _ => s end).

(** [stop()] and [close()] ignore errors by default. *)
Definition stream_stop : nat -> M unit :=
  stream_alter (fun s => match s with StreamActive => StreamInactive | _ => s end).

Definition stream_close : nat -> M unit :=
  stream_alter (fun _ => StreamClosed).

(** Attribute access on the global [stream], [None] before the first
    recording. *)
Definition the_stream : M nat :=
  s <- get stream ;;
  match s with
  | Some h => ret h
  | None => raise AttributeError
  end.

Definition open_streams (w : World) : nat :=
  length (filter (fun s => stream_open s = true) (streams w)).

Definition running (w : World) : bool :=
  existsb (fun s => match s with StreamActive => true | _ => false end)
          (streams w).

(** *** Capture session *)

Definition fs : Z := 16000.
Definition AUDIO_DIR : string := "recordings".
Definition TRANSCRIPT_DIR : string := "transcripts".

Definition status_set (s : string) : M unit := modify (set_status s).

(** [draw_wave(lvl)] clears the canvas and draws seven bars whose heights are
    [lvl] times fixed factors; the canvas is represented by that level. *)
Definition draw_wave (lvl : spec_float) : M unit :=
  modify (set_canvas (Some lvl)).

(** [start_record], [opens] telling whether the input device can be opened
    when the handler runs.  When it cannot, the exception leaves the handler
    after [buffer], [recording] and the status have been set and before
    [stream] is assigned. *)
Definition start_record_with (opens : bool) : M unit :=
  modify (set_buffer []) ;;
  modify (set_recording true) ;;
  status_set "Recording..." ;;
  h <- sd_InputStream opens ;;
  modify (set_stream (Some h)) ;;
  h <- the_stream ;;
  stream_start h.

(** [start_record] on a press that finds the input device. *)
Definition start_record : M unit := start_record_with true.

Definition callback (indata : Block) : M unit :=
  r <- get recording ;;
  if r then
    modify (fun w => set_buffer (buffer w ++ [indata]) w) ;;
    modify (set_level (level_of indata))
  else ret tt.

Definition wave_loop : M unit :=
  r <- get recording ;;
  if r then l <- get level ;; draw_wave l else ret tt.

(** *** Transcript store and history list *)

(** [show_text(text)] opens a window showing [text]. *)
Definition show_text (text : string) : M unit :=
  modify (fun w => set_windows (windows w ++ [text]) w).

Definition refresh_history : M unit :=
  modify (fun w => set_history (list_history (transcripts w)) w).

(** Carriage return and line feed. *)
Definition CR : ascii := "013".
Definition LF : ascii := "010".

(** What [f.read()] returns for a file opened in text mode with the default
    [newline=None] (universal newlines): each carriage return followed by a
    line feed, and each other carriage return, is read as one line feed. *)
Fixpoint universal_newlines (s : string) : string :=
  match s with
  | EmptyString => EmptyString
  | String c s' =>
      if Ascii.eqb c CR then
        match s' with
        | EmptyString => String LF EmptyString
        | String c' s'' =>
            if Ascii.eqb c' LF then String LF (universal_newlines s'')
            else String LF (universal_newlines s')
        end
      else String c (universal_newlines s')
  end.

(** [history.get(i)] is the empty string when [i] is out of range, and
    opening the directory itself raises.  The file is read in text mode. *)
Definition open_history (sel : option nat) : M unit :=
  match sel with
  | None => ret tt
  | Some i =>
      file <- get (fun w => default "" (history w !! i)) ;;
      if decide (file = "") then raise IsADirectoryError else
      content <- get (fun w => transcripts w !! file) ;;
      match content with
      | Some text => show_text (universal_newlines text)
      | None => raise FileNotFoundError
      end
  end.

Definition datetime_now : M DateTime :=
  fun w => (Returned (clock w (ticks w)), set_ticks (S (ticks w)) w).

(** Lines 113-117 of [transcribe]: the two clock readings ([ts] is not
    used) and [open(..., "w")], which creates or truncates the file.  The
    file holds the characters written: in text mode a line feed is written
    as [os.linesep], which is the line feed itself (as on Linux and
    macOS). *)
Definition save (text : string) : M unit :=
  _ <- datetime_now ;;
  t <- datetime_now ;;
  modify (fun w => set_transcripts (<[fname_of t := text]> (transcripts w)) w).

(** *** Waveform finalizer and transcription pipeline *)

Definition record_path : string := "recordings/record.wav".

Definition wavfile_write (path : string) (r : Z) (audio : list int16) : M unit :=
  modify (fun w =>
    set_recordings (<[path := {| rate := r; samples := audio |}]> (recordings w)) w).

(** Runs [c] as one activation of [transcribe]: counted on entry, discounted
    when it returns or raises. *)
Definition in_job {A} (c : M A) : M A :=
  fun w =>
    let '(r, w') := c (set_jobs (S (jobs w)) w) in
    (r, set_jobs (Nat.pred (jobs w')) w').

Definition make_args (lang : string) : Args :=
  {| task := "transcribe";
     condition_on_previous_text := false;
     language_arg := if decide (lang = "auto") then None else Some lang |}.

Section Engine.

(** [model.transcribe(path, **args)]: the text of [result], or the message
    of the exception it raises; it reads the file at [path]. *)
Variable model_transcribe : option Wav -> Args -> string + string.

Definition model_call (path : string) (args : Args) : M string :=
  fun w =>
    let call := {| call_audio := recordings w !! path;
                   call_args := args;
                   call_depth := jobs w |} in
    let w' := set_engine_calls (engine_calls w ++ [call]) w in
    match model_transcribe (recordings w !! path) args with
    | inl text => (Returned text, w')
    | inr msg => (Raised (EngineError msg), w')
    end.

Section Handlers.

(** [root.update()], which runs the handlers of what is pending. *)
Variable root_update : M unit.

Definition transcribe_in (path : string) : M unit :=
  in_job (
    status_set "Transcribing..." ;;
    root_update ;;
    lang <- get language ;;
    text <- model_call path (make_args lang) ;;
    save text ;;
    show_text text ;;
    refresh_history ;;
    status_set "Hold to record").

Definition stop_record_in : M unit :=
  r <- get recording ;;
  if negb r then ret tt else
  modify (set_recording false) ;;
  h <- the_stream ;;
  stream_stop h ;;
  stream_close h ;;
  draw_wave F32.zero ;;
  b <- get buffer ;;
  match b with
  | [] => status_set "Ready"
  | _ :: _ =>
      match finalize b with
      | None => raise ValueError
      | Some audio =>
          wavfile_write record_path fs audio ;;
          transcribe_in record_path
      end
  end.

Definition dispatch_in (e : Stimulus) : M unit :=
  match e with
  | ButtonPress1 => start_record
  | ButtonRelease1 => stop_record_in
  | DoubleButton1 sel => open_history sel
  | WaveTimer => wave_loop
  | AudioCallback indata =>
      live <- get running ;;
      if live then callback indata else ret tt
  | ButtonPress1_unavailable => start_record_with false
  end.

End Handlers.

(** [root.update()] handles what is pending, one stimulus after the other;
    an exception that escapes a handler is reported by Tk and the loop
    goes on.  A handler may itself reach [root.update()], which then works
    on what is left; [n] bounds the number of stimuli handled. *)
Fixpoint root_update_fuel (n : nat) : M unit :=
  fun w =>
    match n with
    | O => (Returned tt, w)
    | S n' =>
        match pending w with
        | [] => (Returned tt, w)
        | e :: rest =>
            let '(r, w1) := dispatch_in (root_update_fuel n') e
                              (set_pending rest w) in
            let w2 := match r with
                      | Returned _ => w1
                      | Raised ex => set_reported (reported w1 ++ [ex]) w1
                      end in
            root_update_fuel n' w2
        end
    end.

Definition root_update : M unit :=
  fun w => root_update_fuel (length (pending w)) w.

Definition transcribe (path : string) : M unit := transcribe_in root_update path.
Definition stop_record : M unit := stop_record_in root_update.
Definition dispatch (e : Stimulus) : M unit := dispatch_in root_update e.

End Engine.

(** The state of the program when [root.mainloop()] is entered, with empty
    [recordings] and [transcripts] directories and no settings file, so that
    the language is "auto". *)
Definition initial (c : nat -> DateTime) : World :=
  {| recording := false; buffer := []; stream := None; level := F32.zero;
     streams := []; status := "Hold to record"; language := "auto";
     canvas := None; history := []; windows := []; pending := [];
     reported := []; recordings := ∅; transcripts := ∅; clock := c;
     ticks := 0; jobs := 0; engine_calls := [] |}.

(** ** Notions used to state the properties *)

(** The world as [transcribe] finds it once it has been entered and has set
    the status, and the world in which it then calls the engine, after
    [root.update()] has handled what was pending. *)
Definition entered (w : World) : World :=
  set_status "Transcribing..." (set_jobs (S (jobs w)) w).

Definition at_engine (model : option Wav -> Args -> string + string)
    (w : World) : World :=
  (root_update model (entered w)).2.

(** The world [stop_record] has made once the stream [h] is stopped and
    closed and the meter redrawn at level zero. *)
Definition stopped (h : nat) (w : World) : World :=
  set_canvas (Some F32.zero)
    (set_streams
       (alter (fun _ => StreamClosed) h
          (alter (fun s => match s with StreamActive => StreamInactive | _ => s end)
             h (streams w)))
       (set_recording false w)).

(** The world [transcribe] leaves when the engine has returned [text] for
    [path] in the world [w1]. *)
Definition stored (path text : string) (w1 : World) : World :=
  let id := fname_of (clock w1 (S (ticks w1))) in
  let call := {| call_audio := recordings w1 !! path;
                 call_args := make_args (language w1);
                 call_depth := jobs w1 |} in
  set_jobs (Nat.pred (jobs w1))
    (set_status "Hold to record"
       (set_history (list_history (<[id := text]> (transcripts w1)))
          (set_windows (windows w1 ++ [text])
             (set_transcripts (<[id := text]> (transcripts w1))
                (set_ticks (S (S (ticks w1)))
                   (set_engine_calls (engine_calls w1 ++ [call]) w1)))))).

(** The world [transcribe] leaves when the engine has raised. *)
Definition failed (path : string) (w1 : World) : World :=
  let call := {| call_audio := recordings w1 !! path;
                 call_args := make_args (language w1);
                 call_depth := jobs w1 |} in
  set_jobs (Nat.pred (jobs w1))
    (set_engine_calls (engine_calls w1 ++ [call]) w1).

(** The largest magnitude among the samples of an artifact. *)
Definition peak_abs (pcm : list Z) : Z := foldr Z.max 0 (Z.abs <$> pcm).

(** [z] is at least as near to the value of [x] as [z'] is. *)
Definition nearer (x : spec_float) (z z' : Z) : Prop :=
  match F32.ratio x with
  | Some (n, d) => Z.abs (n - z * d) <= Z.abs (n - z' * d)
  | None => False
  end.

(** The pipeline's state machine of the design, read off the call stack. *)
Inductive PipelineState : Type := Idle | InFlight.

Definition pipeline_state (w : World) : PipelineState :=
  match jobs w with O => Idle | S _ => InFlight end.

(** The order on identifiers: strictly after, in code point order. *)
Definition id_gt (a b : string) : Prop := String.le b a /\ a <> b.

(** The order of time on instants, field by field, and the instants a
    calendar can show (each field within the width [strftime] gives it). *)
Definition dt_compare (a b : DateTime) : comparison :=
  match Nat.compare (year a) (year b) with Eq =>
  match Nat.compare (month a) (month b) with Eq =>
  match Nat.compare (day a) (day b) with Eq =>
  match Nat.compare (hour a) (hour b) with Eq =>
  match Nat.compare (minute a) (minute b) with Eq =>
  Nat.compare (second a) (second b)
  | c => c end | c => c end | c => c end | c => c end | c => c end.

Definition dt_wf (t : DateTime) : Prop :=
  (year t < 100 * 100 /\ month t < 100 /\ day t < 100 /\
   hour t < 100 /\ minute t < 100 /\ second t < 100)%nat.

(** Whether a carriage return occurs in a text. *)
Fixpoint contains_cr (s : string) : bool :=
  match s with
  | EmptyString => false
  | String c s' => Ascii.eqb c CR || contains_cr s'
  end.

(** [texts] saved one after the other. *)
Definition saves (texts : list string) : M unit :=
  foldr (fun text k => save text ;; k) (ret tt) texts.

(** The instant that names the record of the [i]-th of the saves that start
    in [w]: each save reads the clock twice and names the file after the
    second reading. *)
Definition naming_instant (w : World) (i : nat) : DateTime :=
  clock w (S (ticks w + 2 * i)).

(** The identifiers of the [n] records saved from [w] on, in the order of
    their creation. *)
Definition created (w : World) (n : nat) : list string :=
  (fun i => fname_of (naming_instant w i)) <$> seq 0 n.

(** The clock runs forward over the [n] saves that start in [w]: the naming
    instants are instants of the calendar, each later, by a second at least,
    than the ones before. *)
Definition clock_runs_forward (w : World) (n : nat) : Prop :=
  (forall i, (i < n)%nat -> dt_wf (naming_instant w i)) /\
  (forall i j, (i < j)%nat -> (j < n)%nat ->
     dt_compare (naming_instant w i) (naming_instant w j) = Lt).

(** *** Shifting with round and sticky bits *)

Definition shr_exact (mrs : shr_record) : Prop :=
  shr_r mrs = false /\ shr_s mrs = false.

Definition shifted (k : Z) (mrs mrs' : shr_record) : Prop :=
  0 <= shr_m mrs ->
  shr_m mrs' = shr_m mrs / 2 ^ k /\
  (shr_exact mrs -> shr_m mrs mod 2 ^ k = 0 -> shr_exact mrs').

Abbreviation fexp32 := (fexp F32.prec F32.emax).

(** The order [SFcompare] decides on the magnitudes of two well-formed
    numbers: by exponent, then by mantissa. *)
Definition mag_le (mx : positive) (ex : Z) (my : positive) (ey : Z) : Prop :=
  ex < ey \/ (ex = ey /\ (mx <= my)%positive).

Definition fle (a b : spec_float) : Prop :=
  match a, b with
  | S754_zero _, (S754_zero _ | S754_finite _ _ _) => True
  | S754_finite _ ma ea, S754_finite _ mb eb => mag_le ma ea mb eb
  | _, _ => False
  end.

(** A magnitude: what [np.abs] returns on a finite sample. *)
Definition is_mag (x : spec_float) : Prop :=
  match x with
  | S754_zero false => True
  | S754_finite false m e => bounded F32.prec F32.emax m e = true
  | _ => False
  end.

Definition c32767 : spec_float := S754_finite false 16776704 (-9).

(** ** Sample values and worlds used in examples *)

Definition f1_0 : spec_float := F32.of_Z 1.
Definition f0_5 : spec_float := F32.div (F32.of_Z 1) (F32.of_Z 2).
Definition f0_25 : spec_float := F32.div (F32.of_Z 1) (F32.of_Z 4).

Definition t0 : DateTime :=
  {| year := 2024; month := 3; day := 7; hour := 9; minute := 5; second := 59 |}.

(** A store that already holds a record named after a later instant. *)
Definition w_future : World :=
  set_transcripts {["20300101_000000.txt" := "old"]} (initial (fun _ => t0)).

(** A store that holds a record named after an earlier instant. *)
Definition w_past : World :=
  set_transcripts {["20200101_000000.txt" := "old"]} (initial (fun _ => t0)).

(** A text with a carriage return in it, and the same with a line feed. *)
Definition text_cr : string := String "a" (String CR "b").
Definition text_lf : string := String "a" (String LF "b").

(** A clock that is set back by one hour after its second reading, as local
    time is at the end of daylight saving time: the first record is named
    after 02:30, the second after 02:10. *)
Definition t_0230 : DateTime :=
  {| year := 2024; month := 10; day := 27; hour := 2; minute := 30; second := 0 |}.

Definition t_0210 : DateTime :=
  {| year := 2024; month := 10; day := 27; hour := 2; minute := 10; second := 0 |}.

Definition clock_set_back (n : nat) : DateTime :=
  if (n <? 2)%nat then t_0230 else t_0210.

(** A clock that advances by one second at each reading. *)
Definition clock_seconds (n : nat) : DateTime :=
  {| year := 2024; month := 3; day := 7; hour := 9; minute := 5; second := n |}.

(** Twelve texts to save, two more than the history list shows. *)
Definition twelve_texts : list string :=
  ["a"; "b"; "c"; "d"; "e"; "f"; "g"; "h"; "i"; "j"; "k"; "l"].

(** An engine that recognizes "hello" in every clip, and one that always
    raises. *)
Definition engine_hello : option Wav -> Args -> string + string :=
  fun _ _ => inl "hello".

Definition engine_broken : option Wav -> Args -> string + string :=
  fun _ _ => inr "internal model error".

(** A press, a block and a release that arrive while the first clip is
    being handed to the engine. *)
Definition w_impatient : World :=
  set_pending [ButtonPress1; AudioCallback [f0_5]; ButtonRelease1]
    (initial (fun _ => t0)).

(** ** Notions for the properties of the event loop *)

(** What Tk makes of the outcome of a handler: an exception is reported and
    the loop goes on. *)
Definition settled (r : Outcome unit) (w : World) : World :=
  match r with
  | Returned _ => w
  | Raised ex => set_reported (reported w ++ [ex]) w
  end.

(** [root.mainloop()]: the stimuli that are waiting are handled one after
    the other, then the loop waits for more.  [batches] are the stimuli
    found waiting each time: one at a time in ordinary use, several when
    they arrived while a handler was running. *)
Definition mainloop (model : option Wav -> Args -> string + string)
    (batches : list (list Stimulus)) (w : World) : World :=
  foldl (fun w batch => (root_update model (set_pending (pending w ++ batch) w)).2)
        w batches.

(** [w'] keeps what [w] had: every transcript identifier, every shown text
    and every engine call of [w]; it has written no audio file other than
    [record.wav], and has the same clock and language. *)
Definition keeps (w w' : World) : Prop :=
  (forall id, is_Some (transcripts w !! id) -> is_Some (transcripts w' !! id)) /\
  (forall p, is_Some (recordings w' !! p) ->
             p = record_path \/ is_Some (recordings w !! p)) /\
  windows w `prefix_of` windows w' /\
  engine_calls w `prefix_of` engine_calls w' /\
  (ticks w <= ticks w')%nat /\
  clock w' = clock w /\
  language w' = language w.

(** The capture session is consistent: the global [stream] names a stream
    of the device, and while [recording] is set that stream is running. *)
Definition session_ok (w : World) : Prop :=
  (forall h, stream w = Some h -> (h < length (streams w))%nat) /\
  (recording w = true ->
   exists h, stream w = Some h /\ streams w !! h = Some StreamActive).

(** From [w] to [w'] the reports have only grown, and the session has stayed
    consistent and free of failures on a missing stream, unless a press has
    found no device to open. *)
Definition session_kept (w w' : World) : Prop :=
  (forall ex, ex ∈ reported w -> ex ∈ reported w') /\
  (PortAudioError ∉ reported w' ->
   session_ok w /\ AttributeError ∉ reported w ->
   session_ok w' /\ AttributeError ∉ reported w').

(** A press that finds no device, then the release. *)
Definition no_device : list (list Stimulus) :=
  [[ButtonPress1_unavailable]; [ButtonRelease1]].

(** Two recordings, one stimulus at a time, then a press and a release that
    arrive together. *)
Definition two_clips : list (list Stimulus) :=
  [[ButtonPress1]; [AudioCallback [f0_5]]; [WaveTimer]; [ButtonRelease1];
   [ButtonPress1]; [ButtonRelease1]; [ButtonPress1; ButtonRelease1]].

(** The history list shows stored records only, and no record has the empty
    name. *)
Definition history_ok (w : World) : Prop :=
  (forall id, id ∈ history w -> is_Some (transcripts w !! id)) /\
  transcripts w !! "" = None.

(** The audio thread delivering [blocks] one after the other. *)
Definition deliver (blocks : list Block) (w : World) : World :=
  foldl (fun w b => (callback b w).2) w blocks.

(** Stimuli of a short session: a press, one block, a release. *)
Definition one_clip : list Stimulus :=
  [ButtonPress1; AudioCallback [f0_5]; ButtonRelease1].

(** A recording in progress whose only block has no sample. *)
Definition w_empty_block : World :=
  set_buffer [[]] (start_record (initial (fun _ => t0))).2.

(** A recording in progress that holds one block of amplitude 0.5. *)
Definition w_one_block : World :=
  deliver [[f0_5]] (start_record (initial (fun _ => t0))).2.

(** A value that is not below zero: a NaN, a zero, or a positive number or
    infinity. *)
Definition not_negative (x : spec_float) : Prop :=
  match x with
  | S754_nan | S754_zero _ | S754_infinity false | S754_finite false _ _ => True
  | _ => False
  end.

(** The stored sample [s] has the polarity of the sample [x]: zero for a
    zero, and never of the opposite sign. *)
Definition same_polarity (x : spec_float) (s : int16) : Prop :=
  match x with
  | S754_zero _ => s = I16 0
  | S754_finite true _ _ => exists z, s = I16 z /\ z <= 0
  | S754_finite false _ _ => exists z, s = I16 z /\ 0 <= z
  | _ => False
  end.

(** ** The todo list: [load_json], [save_json], [refresh_todos], [add_todo]
       and [toggle_todo] *)

Module Todos.

(** One entry of a day's list: [{"text": ..., "done": ...}]. *)
Record Todo : Type := { text : string; done : bool }.

Inductive Exn : Type :=
  | KeyError
  | IndexError.

(** The global dict [todos] (date to list of entries), the Tk variable
    [today], the entry field, the listbox, and [todos.json]: the dict it
    holds, or [None] when it is missing or cannot be parsed. *)
Record State : Type := {
  todos : gmap string (list Todo);
  today : string;
  todo_entry : string;
  todo_list : list string;
  todo_file : option (gmap string (list Todo))
}.

(** [load_json(path, default)]: any failure gives [default]. *)
Definition load_json {A} (content : option A) (default : A) : A :=
  match content with
  | Some data => data
  | None => default
  end.

Definition save_json (st : State) : State :=
  {| todos := todos st; today := today st; todo_entry := todo_entry st;
     todo_list := todo_list st; todo_file := Some (todos st) |}.

(** One line of the listbox: the icon, two spaces, the text. *)
Definition render (t : Todo) : string :=
  (if done t then "☑" else "☐") +:+ "  " +:+ text t.

(** [todos.get(today.get(), [])]. *)
Definition todays (st : State) : list Todo :=
  match todos st !! today st with
  | Some l => l
  | None => []
  end.

Definition refresh_todos (st : State) : State :=
  {| todos := todos st; today := today st; todo_entry := todo_entry st;
     todo_list := render <$> todays st; todo_file := todo_file st |}.

(** The program at start: [todos] loaded with default [{}], the date of the
    day in [today], the list drawn. *)
Definition startup (file : option (gmap string (list Todo))) (date : string) :
    State :=
  refresh_todos
    {| todos := load_json file ∅; today := date; todo_entry := "";
       todo_list := []; todo_file := file |}.

(** [add_todo], with [strip] for [str.strip]. *)
Definition add_todo (strip : string -> string) (st : State) : State :=
  let txt := strip (todo_entry st) in
  if decide (txt = "") then st else
  let st1 :=
    {| todos := <[today st := todays st ++ [{| text := txt; done := false |}]]>
                  (todos st);
       today := today st; todo_entry := todo_entry st;
       todo_list := todo_list st; todo_file := todo_file st |} in
  let st2 := save_json st1 in
  refresh_todos
    {| todos := todos st2; today := today st2; todo_entry := "";
       todo_list := todo_list st2; todo_file := todo_file st2 |}.

(** The position [l[idx]] denotes in a Python list of length [n]: negative
    indices count from the end. *)
Definition py_index (n : nat) (idx : Z) : option nat :=
  if (0 <=? idx) && (idx <? Z.of_nat n) then Some (Z.to_nat idx)
  else if (- Z.of_nat n <=? idx) && (idx <? 0) then Some (Z.to_nat (Z.of_nat n + idx))
  else None.

(** [t["done"] ^= True]. *)
Definition flip_done (t : Todo) : Todo :=
  {| text := text t; done := xorb (done t) true |}.

(** [toggle_todo], [idx] being what [todo_list.nearest(e.y)] returned.  When
    a subscript raises, nothing has been assigned yet. *)
Definition toggle_todo (idx : Z) (st : State) : Exn + State :=
  match todos st !! today st with
  | None => inl KeyError
  | Some l =>
      match py_index (length l) idx with
      | None => inl IndexError
      | Some i =>
          let st1 :=
            {| todos := <[today st := alter flip_done i l]> (todos st);
               today := today st; todo_entry := todo_entry st;
               todo_list := todo_list st; todo_file := todo_file st |} in
          inr (refresh_todos (save_json st1))
      end
  end.

(** [str.strip] restricted to blanks, for examples. *)
Fixpoint lstrip_blanks (s : string) : string :=
  match s with
  | String " " s' => lstrip_blanks s'
  | _ => s
  end.

Definition strip_blanks (s : string) : string :=
  String.rev (lstrip_blanks (String.rev (lstrip_blanks s))).

Definition st_example : State :=
  {| todos := {["2024-03-07" := [{| text := "call Ada"; done := false |};
                                 {| text := "buy milk"; done := true |}]]};
     today := "2024-03-07"; todo_entry := "  write report ";
     todo_list := []; todo_file := None |}.

End Todos.


(** * Properties *)

(** ** binary32 rounding never crosses a bound on its grid *)

Lemma digits2_pos_size p : digits2_pos p = Pos.size p.
Proof. induction p; simpl; congruence. Qed.

Lemma Zdigits2_bounds p :
  2 ^ (Z.pos (digits2_pos p) - 1) <= Z.pos p < 2 ^ Z.pos (digits2_pos p).
Proof.
  rewrite digits2_pos_size. split.
  - pose proof (Pos.size_le p) as H.
    assert (Hs : Z.pos (2 ^ Pos.size p) = 2 ^ Z.pos (Pos.size p)) by (rewrite Pos2Z.inj_pow; reflexivity).
    assert (2 ^ Z.pos (Pos.size p) = 2 * 2 ^ (Z.pos (Pos.size p) - 1)).
    { rewrite <- Z.pow_succ_r by lia. f_equal. lia. }
    assert (Z.pos (2 ^ Pos.size p) <= Z.pos p~0)%Z by (apply Pos2Z.pos_le_pos; exact H).
    lia.
  - pose proof (Pos.size_gt p) as H.
    apply Pos2Z.pos_lt_pos in H. rewrite Pos2Z.inj_pow in H. exact H.
Qed.

Lemma Zdigits2_nonneg m : 0 <= Zdigits2 m.
Proof. destruct m; simpl; lia. Qed.

Lemma Zdigits2_le_of_lt m k : 0 <= m -> 0 <= k -> m < 2 ^ k -> Zdigits2 m <= k.
Proof.
  intros Hm Hk Hlt. destruct m as [|p|p]; simpl; try lia.
  destruct (Zdigits2_bounds p) as [Hlo _].
  destruct (Z_le_gt_dec (Z.pos (digits2_pos p)) k) as [|Hgt]; [assumption|].
  exfalso.
  assert (2 ^ k <= 2 ^ (Z.pos (digits2_pos p) - 1)) by (apply Z.pow_le_mono_r; lia).
  lia.
Qed.

Lemma shifted_shr_1 mrs : shifted 1 mrs (shr_1 mrs).
Proof.
  destruct mrs as [m r s]. unfold shifted, shr_exact.
  change (2 ^ 1) with 2.
  destruct m as [|[p|p|]|p]; cbn [shr_1 shr_m shr_r shr_s]; intros Hm; try lia.
  - split; [reflexivity|]. intros [-> ->] _. auto.
  - split; [apply Z.div_unique with 1; lia|].
    intros _ H. exfalso.
    assert (Z.pos p~1 mod 2 = 1) by (symmetry; apply Z.mod_unique with (Z.pos p); lia).
    lia.
  - split; [apply Z.div_unique with 0; lia|].
    intros [-> ->] _. auto.
  - split; [reflexivity|]. intros _ H. discriminate.
Qed.

Lemma shifted_compose j k a b c :
  0 <= j -> 0 <= k -> shifted j a b -> shifted k b c -> shifted (j + k) a c.
Proof.
  unfold shifted. intros Hj Hk Hab Hbc Ha.
  destruct (Hab Ha) as [Hb Hbe].
  assert (0 < 2 ^ j) by (apply Z.pow_pos_nonneg; lia).
  assert (0 < 2 ^ k) by (apply Z.pow_pos_nonneg; lia).
  assert (Hb0 : 0 <= shr_m b) by (rewrite Hb; apply Z.div_pos; lia).
  destruct (Hbc Hb0) as [Hc Hce].
  split.
  - rewrite Hc, Hb, Z.pow_add_r by lia. apply Z.div_div; lia.
  - intros Hex Hmod. rewrite Z.pow_add_r in Hmod by lia.
    apply Z.mod_divide in Hmod; [|lia]. destruct Hmod as [t Ht].
    assert (Hmj : shr_m a mod 2 ^ j = 0).
    { rewrite Ht. replace (t * (2 ^ j * 2 ^ k)) with (t * 2 ^ k * 2 ^ j) by ring.
      apply Z.mod_mul. lia. }
    apply Hce; [apply Hbe; assumption|].
    rewrite Hb, Ht.
    replace (t * (2 ^ j * 2 ^ k)) with (t * 2 ^ k * 2 ^ j) by ring.
    rewrite Z.div_mul by lia. apply Z.mod_mul. lia.
Qed.

Lemma shifted_iter_pos p : forall mrs, shifted (Z.pos p) mrs (SpecFloat.iter_pos shr_1 p mrs).
Proof.
  induction p as [p IH|p IH|]; intros mrs; simpl.
  - replace (Z.pos p~1) with (1 + (Z.pos p + Z.pos p)) by lia.
    eapply shifted_compose; [lia|lia|apply shifted_shr_1|].
    eapply shifted_compose; [lia|lia|apply IH|apply IH].
  - replace (Z.pos p~0) with (Z.pos p + Z.pos p) by lia.
    eapply shifted_compose; [lia|lia|apply IH|apply IH].
  - apply shifted_shr_1.
Qed.

Lemma loc_of_shr_exact mrs : shr_exact mrs -> loc_of_shr_record mrs = loc_Exact.
Proof. destruct mrs as [m r s]. intros [H1 H2]. simpl in *. subst. reflexivity. Qed.

Lemma round_nearest_even_le m l : m <= round_nearest_even m l <= m + 1.
Proof. destruct l as [|[]]; simpl; try lia. destruct (Z.even m); lia. Qed.

Lemma fexp32_eq e : fexp32 e = Z.max (e - 24) (-149).
Proof. reflexivity. Qed.

Lemma loc_of_shr_record_of_loc m l :
  loc_of_shr_record (shr_record_of_loc m l) = l.
Proof. destruct l as [|[]]; reflexivity. Qed.

Lemma shr_m_record_of_loc m l : shr_m (shr_record_of_loc m l) = m.
Proof. destruct l as [|[]]; reflexivity. Qed.

Lemma shr_fexp_spec m e l :
  0 <= m ->
  exists mrs,
    shr_fexp F32.prec F32.emax m e l = (mrs, Z.max e (fexp32 (Zdigits2 m + e))) /\
    shr_m mrs = m / 2 ^ (Z.max e (fexp32 (Zdigits2 m + e)) - e) /\
    (l = loc_Exact ->
     m mod 2 ^ (Z.max e (fexp32 (Zdigits2 m + e)) - e) = 0 ->
     loc_of_shr_record mrs = loc_Exact) /\
    (fexp32 (Zdigits2 m + e) <= e -> loc_of_shr_record mrs = l).
Proof.
  intros Hm. unfold shr_fexp, shr.
  set (f := fexp32 (Zdigits2 m + e)).
  destruct (f - e) as [|p|p] eqn:Hn.
  - exists (shr_record_of_loc m l).
    replace (Z.max e f) with e by lia. rewrite Z.sub_diag, Z.pow_0_r, Z.div_1_r.
    rewrite shr_m_record_of_loc, loc_of_shr_record_of_loc. auto.
  - exists (SpecFloat.iter_pos shr_1 p (shr_record_of_loc m l)).
    replace (Z.max e f) with (e + Z.pos p) by lia.
    replace (e + Z.pos p - e) with (Z.pos p) by lia.
    destruct (shifted_iter_pos p (shr_record_of_loc m l)) as [H1 H2].
    { rewrite shr_m_record_of_loc. exact Hm. }
    rewrite shr_m_record_of_loc in *.
    repeat split; auto.
    + intros -> Hmod. apply loc_of_shr_exact. apply H2; [split; reflexivity|exact Hmod].
    + intros; lia.
  - exists (shr_record_of_loc m l).
    replace (Z.max e f) with e by lia. rewrite Z.sub_diag, Z.pow_0_r, Z.div_1_r.
    rewrite shr_m_record_of_loc, loc_of_shr_record_of_loc. auto.
Qed.

(** Rounding never crosses a bound [K * 2 ^ eb] that lies on the grid of the
    result. *)
Lemma binary_round_aux_le s mx ex lx K eb :
  0 <= mx -> 0 < K ->
  ex <= eb -> eb <= 104 ->
  fexp32 (Zdigits2 K + eb) <= eb ->
  mx <= K * 2 ^ (eb - ex) ->
  (mx = K * 2 ^ (eb - ex) -> lx = loc_Exact) ->
  binary_round_aux F32.prec F32.emax s mx ex lx = S754_zero s \/
  exists m e, binary_round_aux F32.prec F32.emax s mx ex lx = S754_finite s m e /\
              e <= eb /\ Z.pos m <= K * 2 ^ (eb - e).
Proof.
  intros Hmx HK Hex Heb HfK Hle Hexact.
  assert (Hfexp : forall m e, 0 <= m -> e <= eb -> m <= K * 2 ^ (eb - e) ->
                              fexp32 (Zdigits2 m + e) <= eb).
  { intros m e Hm He Hb.
    assert (Zdigits2 m <= Zdigits2 K + (eb - e)).
    { apply Zdigits2_le_of_lt; [lia| pose proof (Zdigits2_nonneg K); lia |].
      rewrite Z.pow_add_r by (pose proof (Zdigits2_nonneg K); lia).
      destruct K as [|k|k]; try lia. simpl Zdigits2.
      destruct (Zdigits2_bounds k) as [_ Hk].
      assert (0 < 2 ^ (eb - e)) by (apply Z.pow_pos_nonneg; lia).
      nia. }
    rewrite fexp32_eq in *. lia. }
  assert (Hshift : forall m e l, 0 <= m -> e <= eb -> m <= K * 2 ^ (eb - e) ->
            exists mrs e1, shr_fexp F32.prec F32.emax m e l = (mrs, e1) /\ e <= e1 <= eb /\
              0 <= shr_m mrs <= K * 2 ^ (eb - e1) /\
              (shr_m mrs = K * 2 ^ (eb - e1) -> m = K * 2 ^ (eb - e) /\
                  (l = loc_Exact -> loc_of_shr_record mrs = loc_Exact)) /\
              (e1 = e -> loc_of_shr_record mrs = l)).
  { intros m e l Hm He Hb.
    destruct (shr_fexp_spec m e l Hm) as (mrs & Heq & Hmrs & Hloc & Hsame).
    pose proof (Hfexp m e Hm He Hb) as Hf.
    set (e1 := Z.max e (fexp32 (Zdigits2 m + e))) in *.
    exists mrs, e1. split; [exact Heq|].
    assert (He1 : e <= e1 <= eb) by lia. split; [exact He1|].
    assert (Hp : 0 < 2 ^ (e1 - e)) by (apply Z.pow_pos_nonneg; lia).
    assert (Hsplit : K * 2 ^ (eb - e) = K * 2 ^ (eb - e1) * 2 ^ (e1 - e)).
    { rewrite <- Z.mul_assoc, <- Z.pow_add_r by lia. do 2 f_equal. lia. }
    assert (Hdm := Z.div_mod m (2 ^ (e1 - e)) ltac:(lia)).
    assert (Hmb := Z.mod_pos_bound m (2 ^ (e1 - e)) Hp).
    rewrite Hmrs.
    split; [split; [apply Z.div_pos; lia|]|split].
    - apply Z.div_le_upper_bound; [lia|]. nia.
    - intros Htop. assert (m = K * 2 ^ (eb - e)) by nia. split; [assumption|].
      intros Hl. apply Hloc; [exact Hl|]. nia.
    - intros H. apply Hsame. lia. }
  unfold binary_round_aux.
  destruct (Hshift mx ex lx Hmx Hex Hle) as (mrs1 & e1 & -> & He1 & Hm1 & Htop1 & Hsame1).
  set (m2 := round_nearest_even (shr_m mrs1) (loc_of_shr_record mrs1)).
  assert (Hm2 : 0 <= m2 <= K * 2 ^ (eb - e1)).
  { pose proof (round_nearest_even_le (shr_m mrs1) (loc_of_shr_record mrs1)) as Hr.
    fold m2 in Hr. split; [lia|].
    destruct (Z.eq_dec (shr_m mrs1) (K * 2 ^ (eb - e1))) as [Heq|Hne]; [|lia].
    destruct (Htop1 Heq) as [Hmxtop Hl]. specialize (Hl (Hexact Hmxtop)).
    unfold m2. rewrite Hl. simpl. lia. }
  destruct (Hshift m2 e1 loc_Exact ltac:(lia) ltac:(lia) ltac:(lia))
    as (mrs2 & e2 & -> & He2 & Hm3 & _ & _).
  destruct (shr_m mrs2) as [|m3|m3] eqn:Hm3eq.
  - left; reflexivity.
  - right. exists m3, e2.
    replace (e2 <=? F32.emax - F32.prec) with true
      by (symmetry; apply Z.leb_le; change (F32.emax - F32.prec) with 104; lia).
    repeat split; lia.
  - lia.
Qed.

Lemma bounded_inv m e :
  bounded F32.prec F32.emax m e = true ->
  Z.pos (digits2_pos m) <= 24 /\ -149 <= e <= 104 /\
  (Z.pos (digits2_pos m) = 24 \/ e = -149).
Proof.
  unfold bounded, canonical_mantissa. rewrite andb_true_iff, Z.eqb_eq, Z.leb_le.
  rewrite fexp32_eq. change (F32.emax - F32.prec) with 104. lia.
Qed.

Lemma div_eucl_div_mod a b : Z.div_eucl a b = (a / b, a mod b).
Proof. unfold Z.div, Z.modulo. destruct (Z.div_eucl a b); reflexivity. Qed.

Lemma new_location_0 n : new_location n 0 = loc_Exact.
Proof. unfold new_location. destruct (Z.even n); reflexivity. Qed.

Lemma SFdiv_le_one sx mx ex sy my ey :
  bounded F32.prec F32.emax mx ex = true -> bounded F32.prec F32.emax my ey = true ->
  mag_le mx ex my ey ->
  SFdiv F32.prec F32.emax (S754_finite sx mx ex) (S754_finite sy my ey) = S754_zero (xorb sx sy) \/
  exists m e, SFdiv F32.prec F32.emax (S754_finite sx mx ex) (S754_finite sy my ey)
                = S754_finite (xorb sx sy) m e /\
              e <= 0 /\ Z.pos m <= 2 ^ (- e).
Proof.
  intros Hbx Hby Hle.
  destruct (bounded_inv _ _ Hbx) as (Hdx & Hex & Hcx).
  destruct (bounded_inv _ _ Hby) as (Hdy & Hey & Hcy).
  destruct (Zdigits2_bounds mx) as [Hxlo Hxhi].
  destruct (Zdigits2_bounds my) as [Hylo Hyhi].
  unfold SFdiv, SFdiv_core_binary. cbn [Zdigits2].
  set (dx := Z.pos (digits2_pos mx)) in *. set (dy := Z.pos (digits2_pos my)) in *.
  assert (Hdd : dx + ex <= dy + ey).
  { destruct Hle as [Hlt|[-> Hm]]; [lia|].
    assert (dx <= dy); [|lia].
    apply (Zdigits2_le_of_lt (Z.pos mx) dy); lia. }
  set (e' := Z.min (fexp32 (dx + ex - (dy + ey))) (ex - ey)).
  assert (He' : e' <= -24 /\ e' <= ex - ey) by (unfold e'; rewrite fexp32_eq; lia).
  set (s := ex - ey - e'). assert (Hs : 0 <= s) by (unfold s; lia).
  set (m' := match s with Z.pos _ => Z.shiftl (Z.pos mx) s | 0 => Z.pos mx | Z.neg _ => 0 end).
  assert (Hm' : m' = Z.pos mx * 2 ^ s).
  { unfold m'. destruct s eqn:E; [rewrite Z.pow_0_r; lia| |lia].
    apply Z.shiftl_mul_pow2. lia. }
  rewrite div_eucl_div_mod.
  assert (Hps : 0 < 2 ^ s) by (apply Z.pow_pos_nonneg; lia).
  assert (Hbound : m' <= Z.pos my * 2 ^ (- e')).
  { rewrite Hm'. destruct Hle as [Hlt|[Heq Hm]].
    - replace (- e') with (s + (ey - ex)) by (unfold s; lia).
      rewrite Z.pow_add_r by lia.
      assert (dy = 24) by lia.
      assert (2 ^ 1 <= 2 ^ (ey - ex)) by (apply Z.pow_le_mono_r; lia).
      assert (Z.pos mx < 2 ^ 24).
      { eapply Z.lt_le_trans; [exact Hxhi|]. apply Z.pow_le_mono_r; lia. }
      replace (dy - 1) with 23 in Hylo by lia.
      change (2 ^ 1) with 2 in *. change (2 ^ 23) with 8388608 in *.
      change (2 ^ 24) with 16777216 in *.
      assert (Z.pos mx <= Z.pos my * 2 ^ (ey - ex)) by nia.
      replace (Z.pos my * (2 ^ s * 2 ^ (ey - ex)))
        with (Z.pos my * 2 ^ (ey - ex) * 2 ^ s) by ring.
      apply Z.mul_le_mono_nonneg_r; lia.
    - replace (- e') with s by (unfold s; lia).
      apply Z.mul_le_mono_nonneg_r; [lia|]. apply Pos2Z.pos_le_pos. exact Hm. }
  assert (Hdm := Z.div_mod m' (Z.pos my) ltac:(lia)).
  assert (Hmb := Z.mod_pos_bound m' (Z.pos my) ltac:(lia)).
  assert (Hq0 : 0 <= m' / Z.pos my) by (apply Z.div_pos; lia).
  assert (Hpe : 0 < 2 ^ (- e')) by (apply Z.pow_pos_nonneg; lia).
  destruct (binary_round_aux_le (xorb sx sy) (m' / Z.pos my) e'
              (new_location (Z.pos my) (m' mod Z.pos my)) 1 0)
    as [Hz|(m & e & Hf & He & Hm)]; try lia.
  - rewrite fexp32_eq. simpl. lia.
  - rewrite Z.sub_0_l, Z.mul_1_l. apply Z.div_le_upper_bound; lia.
  - rewrite Z.sub_0_l, Z.mul_1_l. intros Hq.
    assert (m' mod Z.pos my = 0) by nia.
    replace (m' mod Z.pos my) with 0 by lia. apply new_location_0.
  - left. exact Hz.
  - right. exists m, e. rewrite Z.sub_0_l, Z.mul_1_l in Hm. auto.
Qed.

Lemma SFdiv_self sx sy m e :
  SFdiv F32.prec F32.emax (S754_finite sx m e) (S754_finite sy m e)
  = S754_finite (xorb sx sy) 8388608 (-23).
Proof.
  unfold SFdiv, SFdiv_core_binary. rewrite Z.sub_diag.
  change (Z.min (fexp32 (Zdigits2 (Z.pos m) + e - (Zdigits2 (Z.pos m) + e))) 0)
    with (Z.min (fexp32 (Zdigits2 (Z.pos m) + e - (Zdigits2 (Z.pos m) + e))) 0).
  rewrite Z.sub_diag. change (Z.min (fexp32 0) 0) with (-24).
  change (0 - -24) with 24.
  rewrite div_eucl_div_mod, Z.shiftl_mul_pow2 by lia.
  rewrite Z.mul_comm, Z.div_mul, Z.mod_mul by lia.
  rewrite new_location_0. reflexivity.
Qed.

Lemma SFmul_le_32767 s m e :
  e <= 0 -> Z.pos m <= 2 ^ (- e) ->
  SFmul F32.prec F32.emax (S754_finite s m e) c32767 = S754_zero s \/
  exists m' e', SFmul F32.prec F32.emax (S754_finite s m e) c32767 = S754_finite s m' e' /\
                e' <= 0 /\ Z.pos m' <= 32767 * 2 ^ (- e').
Proof.
  intros He Hm. unfold SFmul, c32767. rewrite xorb_false_r.
  assert (Hpe : 0 < 2 ^ (- e)) by (apply Z.pow_pos_nonneg; lia).
  destruct (binary_round_aux_le s (Z.pos (m * 16776704)) (e + -9) loc_Exact 32767 0)
    as [Hz|(m' & e' & Hf & He' & Hm')]; try lia.
  - rewrite fexp32_eq. simpl. lia.
  - replace (0 - (e + -9)) with (9 + - e) by lia. rewrite Z.pow_add_r by lia.
    rewrite Pos2Z.inj_mul. change (2 ^ 9) with 512. nia.
  - auto.
  - left. exact Hz.
  - right. exists m', e'. rewrite Z.sub_0_l in Hm'. auto.
Qed.

(** ** The peak of a block sequence *)

Lemma is_mag_abs x : F32.finite x = true -> is_mag (SFabs x).
Proof. destruct x as [s|s| |s m e]; simpl; intros H; try discriminate; auto. Qed.

Lemma fle_refl a : is_mag a -> fle a a.
Proof.
  destruct a as [[]|[]| |[] m e]; simpl; intros H; try contradiction; auto.
  right. split; [reflexivity|]. apply Pos.le_refl.
Qed.

Lemma fle_trans a b c : fle a b -> fle b c -> fle a c.
Proof.
  destruct a as [sa|sa| |sa ma ea], b as [sb|sb| |sb mb eb],
    c as [sc|sc| |sc mc ec]; simpl; try tauto.
  unfold mag_le. intros [H1|[H1 H1']] [H2|[H2 H2']]; try (left; lia).
  right. split; [lia|]. eapply Pos.le_trans; eassumption.
Qed.

Lemma maximum_spec a b :
  is_mag a -> is_mag b ->
  (F32.maximum a b = a \/ F32.maximum a b = b) /\
  fle a (F32.maximum a b) /\ fle b (F32.maximum a b).
Proof.
  intros Ha Hb. unfold F32.maximum, F32.ltb, SFltb.
  destruct a as [[]|[]| |[] ma ea]; simpl in Ha; try contradiction;
    destruct b as [[]|[]| |[] mb eb]; simpl in Hb; try contradiction;
    cbn [F32.is_nan SFcompare]; auto.
  - repeat split; auto. apply (fle_refl (S754_finite false mb eb)). exact Hb.
  - repeat split; auto. apply (fle_refl (S754_finite false ma ea)). exact Ha.
  - destruct (Z.compare_spec ea eb) as [Heq|Hlt|Hgt].
    + rewrite Pos.compare_cont_spec. cbn [Pos.switch_Eq].
      destruct (Pos.compare_spec ma mb) as [Hm|Hm|Hm]; cbn [fle]; unfold mag_le;
        (split; [auto|]); split; right; (split; [lia|]); lia.
    + cbn [fle]; unfold mag_le. split; [auto|]. split; [left; lia|].
      right. split; [reflexivity|lia].
    + cbn [fle]; unfold mag_le. split; [auto|]. split; [|left; lia].
      right. split; [reflexivity|lia].
Qed.

Lemma foldl_maximum_spec l : forall a,
  is_mag a -> Forall is_mag l ->
  is_mag (foldl F32.maximum a l) /\
  foldl F32.maximum a l ∈ a :: l /\
  Forall (fun x => fle x (foldl F32.maximum a l)) (a :: l).
Proof.
  induction l as [|b l IH]; intros a Ha Hl; cbn [foldl].
  - split; [exact Ha|]. split; [apply list_elem_of_here|].
    constructor; [apply fle_refl; exact Ha|constructor].
  - inversion Hl as [|? ? Hb Hl']; subst.
    destruct (maximum_spec a b Ha Hb) as (Hor & Hfa & Hfb).
    assert (Hm : is_mag (F32.maximum a b)) by (destruct Hor as [-> | ->]; assumption).
    destruct (IH _ Hm Hl') as (IH1 & IH2 & IH3).
    split; [exact IH1|]. split.
    + apply elem_of_cons in IH2 as [IH2|IH2].
      * rewrite IH2. destruct Hor as [-> | ->];
          [apply list_elem_of_here|apply list_elem_of_further, list_elem_of_here].
      * do 2 apply list_elem_of_further. exact IH2.
    + inversion IH3 as [|? ? Hhd Htl]; subst.
      constructor; [eapply fle_trans; eassumption|].
      constructor; [eapply fle_trans; eassumption|exact Htl].
Qed.

Lemma np_max_abs_spec audio peak :
  Forall (fun x => F32.finite x = true) audio ->
  np_max_abs audio = Some peak ->
  is_mag peak /\
  (exists x, x ∈ audio /\ peak = SFabs x) /\
  Forall (fun x => fle (SFabs x) peak) audio.
Proof.
  intros Hfin Hpeak. destruct audio as [|x xs]; [discriminate|].
  cbn [np_max_abs] in Hpeak. injection Hpeak as <-.
  inversion Hfin as [|? ? Hx Hxs]; subst.
  destruct (foldl_maximum_spec (SFabs <$> xs) (SFabs x)) as (H1 & H2 & H3).
  - apply is_mag_abs. exact Hx.
  - apply Forall_fmap. eapply Forall_impl; [exact Hxs|]. intros y Hy.
    apply is_mag_abs. exact Hy.
  - split; [exact H1|]. split.
    + change (SFabs x :: (SFabs <$> xs)) with (SFabs <$> (x :: xs)) in H2.
      apply list_elem_of_fmap in H2 as (y & Hy & Hin). exists y. auto.
    + change (SFabs x :: (SFabs <$> xs)) with (SFabs <$> (x :: xs)) in H3.
      apply Forall_fmap in H3. exact H3.
Qed.

(** ** Quantization of one normalized sample *)

Lemma of_Z_32767 : F32.of_Z 32767 = c32767.
Proof. reflexivity. Qed.

Lemma trunc_bounded s m e :
  e <= 0 -> Z.pos m <= 32767 * 2 ^ (- e) ->
  exists z, F32.trunc (S754_finite s m e) = Some z /\ Z.abs z <= 32767.
Proof.
  intros He Hm. unfold F32.trunc, F32.ratio.
  assert (Hp : 0 < 2 ^ (- e)) by (apply Z.pow_pos_nonneg; lia).
  destruct (Z.leb_spec 0 e) as [H0|H0].
  - assert (e = 0) by lia. subst e. change (2 ^ 0) with 1. change (2 ^ (- 0)) with 1 in Hm.
    eexists. split; [reflexivity|]. rewrite Z.mul_1_r, Z.quot_1_r.
    destruct s; lia.
  - eexists. split; [reflexivity|].
    assert (Hq : 0 <= Z.pos m ÷ 2 ^ (- e) <= 32767).
    { rewrite Z.quot_div_nonneg by lia. split; [apply Z.div_pos; lia|].
      apply Z.div_le_upper_bound; lia. }
    destruct s; [|lia].
    change (Z.neg m) with (- Z.pos m). rewrite Z.quot_opp_l by lia. lia.
Qed.

Lemma astype_int16_of_trunc x z :
  F32.trunc x = Some z -> Z.abs z <= 32767 -> astype_int16 x = I16 z.
Proof.
  intros Ht Hz. unfold astype_int16. rewrite Ht.
  replace (-32768 <=? z) with true by (symmetry; apply Z.leb_le; lia).
  replace (z <=? 32767) with true by (symmetry; apply Z.leb_le; lia).
  reflexivity.
Qed.

(** A sample no larger than the peak is scaled into the 16-bit range and
    has its fractional part dropped. *)
Lemma quantize_sample x sp mp ep :
  F32.finite x = true -> bounded F32.prec F32.emax mp ep = true ->
  fle (SFabs x) (S754_finite false mp ep) ->
  exists z,
    F32.trunc (F32.mul (F32.div x (S754_finite sp mp ep)) (F32.of_Z 32767)) = Some z /\
    Z.abs z <= 32767.
Proof.
  intros Hx Hp Hle. rewrite of_Z_32767. unfold F32.div, F32.mul.
  destruct x as [sx|sx| |sx mx ex]; simpl in Hx; try discriminate.
  - exists 0. split; [reflexivity|lia].
  - cbn [SFabs fle] in Hle.
    destruct (SFdiv_le_one sx mx ex sp mp ep Hx Hp Hle) as [-> | (m & e & -> & He & Hm)].
    + exists 0. split; [reflexivity|lia].
    + destruct (SFmul_le_32767 (xorb sx sp) m e He Hm) as [-> | (m' & e' & -> & He' & Hm')].
      * exists 0. split; [reflexivity|lia].
      * apply trunc_bounded; assumption.
Qed.

(** The sample of largest magnitude is scaled to full scale exactly. *)
Lemma quantize_peak sx sp m e :
  exists z,
    F32.trunc (F32.mul (F32.div (S754_finite sx m e) (S754_finite sp m e))
                       (F32.of_Z 32767)) = Some z /\
    Z.abs z = 32767.
Proof.
  unfold F32.div. rewrite SFdiv_self.
  destruct (xorb sx sp); eexists; (split; [vm_compute; reflexivity|reflexivity]).
Qed.

Lemma peak_abs_le pcm b :
  0 <= b -> Forall (fun z => Z.abs z <= b) pcm -> peak_abs pcm <= b.
Proof.
  intros Hb H. unfold peak_abs.
  induction H as [|z l Hz Hl IH]; [exact Hb|].
  rewrite fmap_cons. cbn [foldr]. apply Z.max_lub; assumption.
Qed.

Lemma peak_abs_ge pcm z : z ∈ pcm -> Z.abs z <= peak_abs pcm.
Proof.
  unfold peak_abs.
  induction 1 as [z l|z y l Hin IH]; rewrite fmap_cons; cbn [foldr].
  - apply Z.le_max_l.
  - etrans; [exact IH|]. apply Z.le_max_r.
Qed.

(** ** Waveform finalizer *)

Lemma np_max_abs_silence audio :
  audio <> [] -> Forall (fun x => F32.is_zero x = true) audio ->
  np_max_abs audio = Some F32.zero.
Proof.
  intros Hne Hz. destruct audio as [|x xs]; [contradiction|].
  inversion Hz as [|? ? Hx Hxs]; subst. cbn [np_max_abs]. f_equal.
  destruct x; try discriminate. cbn [SFabs]. clear Hz Hne Hx.
  induction Hxs as [|y l Hy Hl IH]; [reflexivity|].
  rewrite fmap_cons. cbn [foldl]. destruct y; try discriminate. exact IH.
Qed.

(** C2. A recording of pure silence is not set apart: its peak is zero, every
    sample is divided by that zero, which gives a NaN, and the conversion of
    a NaN to a 16-bit integer has no defined value; the artifact is not the
    silence the finalizer is to encode. *)
Theorem finalize_silence_divides_by_zero (buffer : list Block) :
  np_concatenate buffer <> [] ->
  Forall (fun x => F32.is_zero x = true) (np_concatenate buffer) ->
  np_max_abs (np_concatenate buffer) = Some F32.zero /\
  Forall (fun y => y = S754_nan) (normalize F32.zero (np_concatenate buffer)) /\
  exists pcm, finalize buffer = Some pcm /\
              Forall (fun s => s = I16_undefined) pcm.
Proof.
  intros Hne Hz. pose proof (np_max_abs_silence _ Hne Hz) as Hpeak.
  split; [exact Hpeak|]. split.
  - unfold normalize. apply Forall_fmap. eapply Forall_impl; [exact Hz|].
    intros x Hx. destruct x; try discriminate. reflexivity.
  - unfold finalize. rewrite Hpeak. cbn [mbind option_bind]. eexists. split; [reflexivity|].
    unfold quantize, normalize. rewrite <- list_fmap_compose. apply Forall_fmap.
    eapply Forall_impl; [exact Hz|].
    intros x Hx. destruct x; try discriminate. reflexivity.
Qed.

Lemma finalize_silence_divides_by_zero_witness :
  np_max_abs (np_concatenate [[F32.zero]; [S754_zero true]]) = Some F32.zero /\
  Forall (fun y => y = S754_nan)
         (normalize F32.zero (np_concatenate [[F32.zero]; [S754_zero true]])) /\
  exists pcm, finalize [[F32.zero]; [S754_zero true]] = Some pcm /\
              Forall (fun s => s = I16_undefined) pcm.
Proof.
  apply (finalize_silence_divides_by_zero [[F32.zero]; [S754_zero true]]).
  - discriminate.
  - repeat constructor.
Defined.

(** C4, as stated, fails: with the samples 1.0 and 0.25 the second one is
    scaled to 16776704/2048 = 8191.75 and stored as 8191, although 8192 is the
    nearer integer. *)
Lemma finalize_does_not_round_to_nearest :
  finalize [[f1_0; f0_25]] = Some [I16 32767; I16 8191] /\
  F32.ratio (F32.mul (F32.div f0_25 f1_0) (F32.of_Z 32767)) = Some (16776704, 2048) /\
  ~ nearer (F32.mul (F32.div f0_25 f1_0) (F32.of_Z 32767)) 8191 8192.
Proof.
  split; [vm_compute; reflexivity|]. split; [vm_compute; reflexivity|].
  unfold nearer.
  replace (F32.ratio (F32.mul (F32.div f0_25 f1_0) (F32.of_Z 32767)))
    with (Some (16776704, 2048)) by (vm_compute; reflexivity).
  lia.
Qed.

(** C4, amended. For finite samples of which one at least is not zero, every
    sample is divided by the peak, multiplied by 32767 and stored with its
    fractional part dropped (rounded toward zero, not to nearest); no
    clamping is applied and none is needed, and the peak magnitude of the
    artifact is exactly 32767. *)
Theorem finalize_full_scale (buffer : list Block) :
  Forall (fun x => F32.finite x = true) (np_concatenate buffer) ->
  Exists (fun x => F32.is_zero x = false) (np_concatenate buffer) ->
  exists peak pcm,
    np_max_abs (np_concatenate buffer) = Some peak /\
    finalize buffer = Some (I16 <$> pcm) /\
    peak_abs pcm = 32767 /\
    Forall2 (fun x z =>
               F32.trunc (F32.mul (F32.div x peak) (F32.of_Z 32767)) = Some z)
            (np_concatenate buffer) pcm.
Proof.
  set (audio := np_concatenate buffer). intros Hfin Hnz.
  destruct (np_max_abs audio) as [peak|] eqn:Hpeak;
    [|destruct audio; [inversion Hnz|discriminate]].
  destruct (np_max_abs_spec audio peak Hfin Hpeak) as (Hmag & (xj & Hxj & Hpj) & Hall).
  assert (Hform : exists mp ep, peak = S754_finite false mp ep /\
                                bounded F32.prec F32.emax mp ep = true).
  { apply Exists_exists in Hnz as (y & Hy & Hyz).
    rewrite Forall_forall in Hall. specialize (Hall y Hy).
    destruct peak as [[]|[]| |[] mp ep]; simpl in Hmag; try contradiction;
      [|eauto].
    destruct y; try discriminate; simpl in Hall; contradiction. }
  destruct Hform as (mp & ep & -> & Hbp).
  set (scaled := fun x => F32.mul (F32.div x (S754_finite false mp ep)) (F32.of_Z 32767)).
  set (g := fun x => default 0 (F32.trunc (scaled x))).
  assert (Hg : Forall (fun x => F32.trunc (scaled x) = Some (g x) /\
                                Z.abs (g x) <= 32767) audio).
  { rewrite Forall_forall in Hall, Hfin. apply Forall_forall. intros x Hx.
    destruct (quantize_sample x false mp ep (Hfin x Hx) Hbp (Hall x Hx)) as (z & Hz & Hb).
    unfold g, scaled. rewrite Hz. auto. }
  exists (S754_finite false mp ep), (g <$> audio).
  split; [reflexivity|]. split; [|split].
  - unfold finalize. fold audio. rewrite Hpeak. cbn [mbind option_bind]. f_equal.
    unfold quantize, normalize. rewrite <- !list_fmap_compose.
    apply Forall_fmap_ext. eapply Forall_impl; [exact Hg|].
    intros x [Ht Hb]. cbn. apply astype_int16_of_trunc; assumption.
  - apply Z.le_antisymm.
    + apply peak_abs_le; [lia|]. apply Forall_fmap.
      eapply Forall_impl; [exact Hg|]. intros x [_ Hb]. exact Hb.
    + assert (Hxj' : exists sj, xj = S754_finite sj mp ep).
      { destruct xj; try discriminate. injection Hpj as -> ->. eauto. }
      destruct Hxj' as [sj ->].
      destruct (quantize_peak sj false mp ep) as (z & Hz & Hzabs).
      rewrite <- Hzabs. apply peak_abs_ge.
      apply list_elem_of_fmap. exists (S754_finite sj mp ep). split; [|exact Hxj].
      unfold g, scaled. rewrite Hz. reflexivity.
  - apply Forall2_fmap_r. apply Forall_Forall2_diag.
    eapply Forall_impl; [exact Hg|]. intros x [Ht _]. exact Ht.
Qed.

Lemma finalize_full_scale_witness :
  exists peak pcm,
    np_max_abs (np_concatenate [[f0_5; SFopp f0_25]; [f0_25]]) = Some peak /\
    finalize [[f0_5; SFopp f0_25]; [f0_25]] = Some (I16 <$> pcm) /\
    peak_abs pcm = 32767 /\
    Forall2 (fun x z =>
               F32.trunc (F32.mul (F32.div x peak) (F32.of_Z 32767)) = Some z)
            (np_concatenate [[f0_5; SFopp f0_25]; [f0_25]]) pcm.
Proof.
  apply (finalize_full_scale [[f0_5; SFopp f0_25]; [f0_25]]).
  - repeat constructor.
  - apply Exists_cons_hd. reflexivity.
Defined.

(** ** Transcript store and history listing *)

Lemma elem_of_os_listdir {A} (dir : gmap string A) (x : string) :
  x ∈ os_listdir dir <-> is_Some (dir !! x).
Proof.
  unfold os_listdir. rewrite list_elem_of_fmap. split.
  - intros ([k v] & -> & Hin). apply elem_of_map_to_list in Hin. eauto.
  - intros [v Hv]. exists (x, v). split; [reflexivity|].
    apply elem_of_map_to_list. exact Hv.
Qed.

Lemma NoDup_os_listdir {A} (dir : gmap string A) : NoDup (os_listdir dir).
Proof. apply NoDup_fst_map_to_list. Qed.

Lemma py_sorted_reverse_perm names : py_sorted_reverse names ≡ₚ names.
Proof. apply merge_sort_Permutation. Qed.

#[local] Instance flip_le_total : Total (flip String.le).
Proof. intros x y. unfold flip. destruct (total String.le x y); auto. Qed.

Lemma py_sorted_reverse_sorted names :
  StronglySorted (flip String.le) (py_sorted_reverse names).
Proof. apply StronglySorted_merge_sort; apply _. Qed.

Lemma StronglySorted_strict (l : list string) :
  NoDup l -> StronglySorted (flip String.le) l -> StronglySorted id_gt l.
Proof.
  intros Hnd Hs. induction Hs as [|x l Hs IH Hall]; [constructor|].
  apply NoDup_cons in Hnd as [Hx Hnd]. constructor; [apply IH; exact Hnd|].
  rewrite Forall_forall in Hall. apply Forall_forall. intros y Hy.
  split; [apply Hall; exact Hy|]. intros ->. contradiction.
Qed.

Lemma StronglySorted_take {A} (R : relation A) (l : list A) : forall n,
  StronglySorted R l -> StronglySorted R (take n l).
Proof.
  induction l as [|x l IH]; intros [|n] Hs; cbn [take]; try constructor.
  - apply IH. inversion Hs; assumption.
  - apply Forall_take. inversion Hs; assumption.
Qed.

Lemma elem_of_list_history dir id :
  id ∈ list_history dir -> is_Some (dir !! id).
Proof.
  unfold list_history. intros Hin.
  apply elem_of_take in Hin as (i & Hi & _).
  apply list_elem_of_lookup_2 in Hi. rewrite py_sorted_reverse_perm in Hi.
  apply elem_of_os_listdir. exact Hi.
Qed.

Lemma list_history_spec dir :
  (length (list_history dir) <= 10)%nat /\ StronglySorted id_gt (list_history dir).
Proof.
  unfold list_history. split.
  - rewrite length_take. lia.
  - apply StronglySorted_take, StronglySorted_strict.
    + rewrite py_sorted_reverse_perm. apply NoDup_os_listdir.
    + apply py_sorted_reverse_sorted.
Qed.

(** The newest identifier heads the listing when no stored identifier
    exceeds it. *)
Lemma list_history_head dir id :
  is_Some (dir !! id) ->
  (forall x, is_Some (dir !! x) -> String.le x id) ->
  list_history dir !! 0%nat = Some id.
Proof.
  intros Hid Hmax. unfold list_history.
  pose proof (py_sorted_reverse_sorted (os_listdir dir)) as Hs.
  assert (Hmem : forall x, x ∈ py_sorted_reverse (os_listdir dir) <-> is_Some (dir !! x)).
  { intros x. rewrite py_sorted_reverse_perm. apply elem_of_os_listdir. }
  destruct (py_sorted_reverse (os_listdir dir)) as [|h tl] eqn:E.
  - apply Hmem in Hid. inversion Hid.
  - cbn. f_equal.
    assert (Hh : String.le h id) by (apply Hmax, Hmem; apply list_elem_of_here).
    assert (Hi : String.le id h).
    { apply Hmem in Hid. apply elem_of_cons in Hid as [->|Hin]; [reflexivity|].
      inversion Hs as [|? ? _ Hall]; subst. rewrite Forall_forall in Hall.
      apply Hall. exact Hin. }
    apply (anti_symm String.le); assumption.
Qed.

Lemma fname_of_nonempty t : fname_of t <> "".
Proof. unfold fname_of, pad4. discriminate. Qed.

(** *** Identifiers and time *)

Lemma digit_compare a b :
  Ascii.compare (digit a) (digit b) = Nat.compare (a mod 10) (b mod 10).
Proof.
  unfold digit.
  pose proof (Nat.mod_upper_bound a 10 ltac:(lia)) as Ha.
  pose proof (Nat.mod_upper_bound b 10 ltac:(lia)) as Hb.
  destruct (a mod 10)%nat as [|[|[|[|[|[|[|[|[|[|x]]]]]]]]]]; try lia;
  destruct (b mod 10)%nat as [|[|[|[|[|[|[|[|[|[|y]]]]]]]]]]; try lia;
  reflexivity.
Qed.

Lemma pad2_compare n m r s :
  String.compare (pad2 n r) (pad2 m s) =
  match Nat.compare (n mod 100) (m mod 100) with
  | Eq => String.compare r s
  | c => c
  end.
Proof.
  unfold pad2. cbn [String.compare]. rewrite !digit_compare.
  assert (Hn : (n mod 100 = 10 * ((n / 10) mod 10) + n mod 10)%nat).
  { rewrite (Nat.div_mod_eq n 10) at 1.
    pose proof (Nat.div_mod_eq (n / 10) 10). pose proof (Nat.mod_upper_bound n 10 ltac:(lia)).
    pose proof (Nat.mod_upper_bound (n / 10) 10 ltac:(lia)).
    symmetry. apply Nat.mod_unique with (n / 10 / 10)%nat; lia. }
  assert (Hm : (m mod 100 = 10 * ((m / 10) mod 10) + m mod 10)%nat).
  { rewrite (Nat.div_mod_eq m 10) at 1.
    pose proof (Nat.div_mod_eq (m / 10) 10). pose proof (Nat.mod_upper_bound m 10 ltac:(lia)).
    pose proof (Nat.mod_upper_bound (m / 10) 10 ltac:(lia)).
    symmetry. apply Nat.mod_unique with (m / 10 / 10)%nat; lia. }
  rewrite Hn, Hm.
  pose proof (Nat.mod_upper_bound n 10 ltac:(lia)).
  pose proof (Nat.mod_upper_bound m 10 ltac:(lia)).
  destruct (Nat.compare_spec ((n / 10) mod 10) ((m / 10) mod 10)) as [E|E|E].
  - rewrite E. destruct (Nat.compare_spec (n mod 10) (m mod 10)) as [E'|E'|E'].
    + rewrite E'. rewrite Nat.compare_refl. reflexivity.
    + symmetry. replace (_ ?= _)%nat with Lt; [reflexivity|]. symmetry. apply Nat.compare_lt_iff. lia.
    + symmetry. replace (_ ?= _)%nat with Gt; [reflexivity|]. symmetry. apply Nat.compare_gt_iff. lia.
  - symmetry. replace (_ ?= _)%nat with Lt; [reflexivity|]. symmetry. apply Nat.compare_lt_iff. lia.
  - symmetry. replace (_ ?= _)%nat with Gt; [reflexivity|]. symmetry. apply Nat.compare_gt_iff. lia.
Qed.

Lemma pad2_compare_small n m r s :
  (n < 100)%nat -> (m < 100)%nat ->
  String.compare (pad2 n r) (pad2 m s) =
  match Nat.compare n m with
  | Eq => String.compare r s
  | c => c
  end.
Proof.
  intros Hn Hm. rewrite pad2_compare, !Nat.mod_small by assumption. reflexivity.
Qed.

Lemma pad4_compare n m r s :
  (n < 100 * 100)%nat -> (m < 100 * 100)%nat ->
  String.compare (pad4 n r) (pad4 m s) =
  match Nat.compare n m with
  | Eq => String.compare r s
  | c => c
  end.
Proof.
  intros Hn Hm. unfold pad4. cbn [String.compare].
  rewrite !digit_compare, pad2_compare.
  pose proof (Nat.div_mod_eq n 100) as En. pose proof (Nat.div_mod_eq m 100) as Em.
  pose proof (Nat.mod_upper_bound n 100 ltac:(lia)) as Bn.
  pose proof (Nat.mod_upper_bound m 100 ltac:(lia)) as Bm.
  assert (Hqn : (n / 100 < 100)%nat) by (apply Nat.Div0.div_lt_upper_bound; lia).
  assert (Hqm : (m / 100 < 100)%nat) by (apply Nat.Div0.div_lt_upper_bound; lia).
  replace (n / 1000)%nat with (n / 100 / 10)%nat
    by (rewrite Nat.Div0.div_div; reflexivity).
  replace (m / 1000)%nat with (m / 100 / 10)%nat
    by (rewrite Nat.Div0.div_div; reflexivity).
  pose proof (Nat.div_mod_eq (n / 100) 10) as En'.
  pose proof (Nat.div_mod_eq (m / 100) 10) as Em'.
  pose proof (Nat.mod_upper_bound (n / 100) 10 ltac:(lia)) as Bn'.
  pose proof (Nat.mod_upper_bound (m / 100) 10 ltac:(lia)) as Bm'.
  assert (Hdn : (n / 100 / 10 < 10)%nat) by (apply Nat.Div0.div_lt_upper_bound; lia).
  assert (Hdm : (m / 100 / 10 < 10)%nat) by (apply Nat.Div0.div_lt_upper_bound; lia).
  rewrite (Nat.mod_small (n / 100 / 10) 10), (Nat.mod_small (m / 100 / 10) 10) by assumption.
  destruct (Nat.compare_spec (n / 100 / 10) (m / 100 / 10)) as [E1|E1|E1];
    [destruct (Nat.compare_spec ((n / 100) mod 10) ((m / 100) mod 10)) as [E2|E2|E2];
       [destruct (Nat.compare_spec (n mod 100) (m mod 100)) as [E3|E3|E3]| |]| |].
  - replace m with n by lia. rewrite Nat.compare_refl. reflexivity.
  - replace (n ?= m)%nat with Lt; [reflexivity|]. symmetry. apply Nat.compare_lt_iff. lia.
  - replace (n ?= m)%nat with Gt; [reflexivity|]. symmetry. apply Nat.compare_gt_iff. lia.
  - replace (n ?= m)%nat with Lt; [reflexivity|]. symmetry. apply Nat.compare_lt_iff. lia.
  - replace (n ?= m)%nat with Gt; [reflexivity|]. symmetry. apply Nat.compare_gt_iff. lia.
  - replace (n ?= m)%nat with Lt; [reflexivity|]. symmetry. apply Nat.compare_lt_iff. lia.
  - replace (n ?= m)%nat with Gt; [reflexivity|]. symmetry. apply Nat.compare_gt_iff. lia.
Qed.

(** On well-formed instants the order of identifiers is the order of time. *)
Lemma fname_of_compare a b :
  dt_wf a -> dt_wf b ->
  String.compare (fname_of a) (fname_of b) = dt_compare a b.
Proof.
  intros (Ha1 & Ha2 & Ha3 & Ha4 & Ha5 & Ha6) (Hb1 & Hb2 & Hb3 & Hb4 & Hb5 & Hb6).
  unfold fname_of, dt_compare.
  rewrite pad4_compare by assumption.
  destruct (year a ?= year b)%nat; try reflexivity.
  rewrite pad2_compare_small by assumption.
  destruct (month a ?= month b)%nat; try reflexivity.
  rewrite pad2_compare_small by assumption.
  destruct (day a ?= day b)%nat; try reflexivity.
  cbn [String.compare]. change (Ascii.compare "_" "_") with Eq. cbv iota.
  rewrite pad2_compare_small by assumption.
  destruct (hour a ?= hour b)%nat; try reflexivity.
  rewrite pad2_compare_small by assumption.
  destruct (minute a ?= minute b)%nat; try reflexivity.
  rewrite pad2_compare_small by assumption.
  destruct (second a ?= second b)%nat; reflexivity.
Qed.

Lemma fname_of_later a b :
  dt_wf a -> dt_wf b -> dt_compare a b = Lt -> id_gt (fname_of b) (fname_of a).
Proof.
  intros Ha Hb Hlt. pose proof (fname_of_compare a b Ha Hb) as Hc. rewrite Hlt in Hc.
  split.
  - unfold String.le, String.leb. rewrite Hc. exact I.
  - intros Heq. rewrite Heq in Hc.
    pose proof (String.compare_antisym (fname_of a) (fname_of a)) as Hs.
    rewrite Hc in Hs. discriminate.
Qed.

(** The premise of the round trip holds when every stored record was named
    after an instant that is not later than the current one. *)
Lemma fname_of_not_later a b :
  dt_wf a -> dt_wf b -> dt_compare a b <> Gt -> String.le (fname_of a) (fname_of b).
Proof.
  intros Ha Hb Hc. unfold String.le, String.leb.
  rewrite (fname_of_compare a b Ha Hb). destruct (dt_compare a b); [exact I|exact I|congruence].
Qed.

(** The listing is as long as the limit allows. *)
Lemma length_list_history dir : length (list_history dir) = min 10 (size dir).
Proof.
  unfold list_history. rewrite length_take.
  rewrite (Permutation_length (py_sorted_reverse_perm (os_listdir dir))).
  unfold os_listdir. rewrite length_fmap, length_map_to_list. reflexivity.
Qed.

(** What the limit leaves out is below all that is listed. *)
Lemma list_history_greatest dir id id' :
  is_Some (dir !! id) -> id ∉ list_history dir -> id' ∈ list_history dir ->
  id_gt id' id.
Proof.
  unfold list_history. intros Hid Hout Hin.
  pose proof (py_sorted_reverse_sorted (os_listdir dir)) as Hs.
  rewrite <- (take_drop 10 (py_sorted_reverse (os_listdir dir))) in Hs.
  assert (Hmem : id ∈ py_sorted_reverse (os_listdir dir)).
  { rewrite py_sorted_reverse_perm. apply elem_of_os_listdir. exact Hid. }
  rewrite <- (take_drop 10 (py_sorted_reverse (os_listdir dir))) in Hmem.
  apply elem_of_app in Hmem as [Hmem|Hmem]; [contradiction|].
  split.
  - exact (StronglySorted_app_1_elem_of _ _ _ _ _ Hs Hin Hmem).
  - intros ->. contradiction.
Qed.

(** What [save] leaves behind: two clock readings consumed and the text
    stored under the identifier of the second reading. *)
Lemma save_spec text w :
  save text w =
  (Returned tt,
   set_transcripts (<[fname_of (clock w (S (ticks w))) := text]> (transcripts w))
     (set_ticks (S (S (ticks w))) w)).
Proof. reflexivity. Qed.

(** C3. Two saves whose identifiers are derived from the same second leave
    one record: the second call truncates the file of the first, whose text
    is lost.  One defect, the missing check for an existing file in
    [save]. *)
Theorem save_same_second_overwrites (w : World) (t1 t2 : string) :
  clock w (S (ticks w)) = clock w (S (S (S (ticks w)))) ->
  t1 <> t2 ->
  (forall id, transcripts w !! id <> Some t1) ->
  let id := fname_of (clock w (S (ticks w))) in
  let w' := ((save t1 ;; save t2) w).2 in
  transcripts w' = <[id := t2]> (transcripts w) /\
  transcripts w' !! id = Some t2 /\
  (forall id', transcripts w' !! id' <> Some t1).
Proof.
  intros Hsame Hne Hfresh id w'.
  assert (Hw : transcripts w' = <[id := t2]> (transcripts w)).
  { subst w' id. cbn. rewrite <- Hsame. apply insert_insert_eq. }
  split; [exact Hw|]. rewrite Hw. split; [apply lookup_insert_eq|].
  intros id'. destruct (decide (id = id')) as [<-|Hd].
  - rewrite lookup_insert_eq. congruence.
  - rewrite lookup_insert_ne by exact Hd. apply Hfresh.
Qed.

Lemma save_same_second_overwrites_witness :
  let w := initial (fun _ => t0) in
  let w' := ((save "first" ;; save "second") w).2 in
  transcripts w' = <["20240307_090559.txt" := "second"]> (transcripts w) /\
  transcripts w' !! "20240307_090559.txt" = Some "second" /\
  (forall id', transcripts w' !! id' <> Some "first").
Proof.
  apply (save_same_second_overwrites (initial (fun _ => t0)) "first" "second").
  - reflexivity.
  - discriminate.
  - intros id. cbn. rewrite lookup_empty. discriminate.
Defined.

(** *** Records in the order of their creation *)

Lemma saves_cons text texts w :
  saves (text :: texts) w = saves texts (save text w).2.
Proof. cbn [saves foldr]. unfold bind at 1. rewrite save_spec. reflexivity. Qed.

Lemma created_succ text w n :
  created w (S n) = fname_of (naming_instant w 0) :: created (save text w).2 n.
Proof.
  unfold created. cbn [seq fmap list_fmap]. f_equal.
  rewrite <- fmap_S_seq, <- list_fmap_compose. apply list_fmap_ext.
  intros _ i _. cbn. unfold naming_instant. cbn. do 2 f_equal. lia.
Qed.

(** What a sequence of saves leaves: the records of before, and one record
    under each identifier created. *)
Lemma saves_spec texts : forall w,
  (saves texts w).1 = Returned tt /\
  forall id, is_Some (transcripts (saves texts w).2 !! id) <->
             is_Some (transcripts w !! id) \/ id ∈ created w (length texts).
Proof.
  induction texts as [|text texts IH]; intros w.
  - split; [reflexivity|]. intros id. cbn. split; [auto|].
    intros [H|H]; [exact H|]. apply elem_of_nil in H. contradiction.
  - rewrite saves_cons. destruct (IH (save text w).2) as [Hret Hdom].
    split; [exact Hret|]. intros id. rewrite Hdom. cbn [length].
    rewrite (created_succ text), elem_of_cons.
    rewrite save_spec. cbn [snd transcripts set_transcripts].
    rewrite lookup_insert_is_Some'.
    unfold naming_instant. rewrite Nat.mul_0_r, Nat.add_0_r.
    split; [intros [[<-|H]|H]|intros [H|[->|H]]]; auto.
Qed.

(** Under a clock that runs forward, the identifiers created are listed
    latest first when listed in the descending order of names. *)
Lemma created_descending w n :
  clock_runs_forward w n ->
  StronglySorted id_gt (reverse (created w n)).
Proof.
  intros [Hwf Hlt]. unfold created.
  assert (H : forall m, (m <= n)%nat ->
    StronglySorted id_gt
      (reverse ((fun i => fname_of (naming_instant w i)) <$> seq 0 m))).
  { induction m as [|m IH]; intros Hm; [constructor|].
    rewrite seq_S, fmap_app, reverse_app. cbn [fmap list_fmap reverse rev_append app].
    change (rev_append ?l []) with (reverse l).
    constructor; [apply IH; lia|]. apply Forall_forall. intros id Hid.
    apply elem_of_reverse, list_elem_of_fmap in Hid as (i & -> & Hi).
    apply elem_of_seq in Hi. apply fname_of_later; [apply Hwf| apply Hwf|apply Hlt]; lia. }
  apply H. lia.
Qed.

Lemma id_gt_le a b : id_gt a b -> flip String.le a b.
Proof. intros [H _]. exact H. Qed.

Lemma StronglySorted_weaken {A} (R R' : relation A) (l : list A) :
  (forall a b, R a b -> R' a b) -> StronglySorted R l -> StronglySorted R' l.
Proof.
  intros HR. induction 1 as [|x l Hs IH Hall]; constructor; [exact IH|].
  eapply Forall_impl; [exact Hall|]. intros y. apply HR.
Qed.

Lemma StronglySorted_id_gt_NoDup l : StronglySorted id_gt l -> NoDup l.
Proof.
  induction 1 as [|x l Hs IH Hall]; constructor; [|exact IH].
  intros Hin. rewrite Forall_forall in Hall. destruct (Hall x Hin) as [_ Hne].
  congruence.
Qed.

#[local] Instance flip_le_antisymm : AntiSymm (=) (flip String.le).
Proof. intros x y H1 H2. unfold flip in *. apply (anti_symm String.le); assumption. Qed.

(** From an empty store, under a clock that runs forward, the listing is the
    identifiers created, latest first, cut at the limit. *)
Lemma saves_list_history texts w :
  transcripts w = ∅ -> clock_runs_forward w (length texts) ->
  list_history (transcripts (saves texts w).2)
  = take 10 (reverse (created w (length texts))).
Proof.
  intros Hempty Hclock. unfold list_history. f_equal.
  pose proof (created_descending w (length texts) Hclock) as Hdesc.
  apply (StronglySorted_unique (flip String.le)).
  - apply py_sorted_reverse_sorted.
  - eapply StronglySorted_weaken; [|exact Hdesc]. intros a b. apply id_gt_le.
  - rewrite py_sorted_reverse_perm. apply NoDup_Permutation.
    + apply NoDup_os_listdir.
    + apply StronglySorted_id_gt_NoDup. exact Hdesc.
    + intros id. rewrite elem_of_os_listdir, elem_of_reverse.
      rewrite (proj2 (saves_spec texts w)), Hempty, lookup_empty.
      split; [intros [[v Hv]|H]; [discriminate|exact H]|auto].
Qed.

(** C6, as stated, fails: the listing is in the descending order of names,
    which is not the order of creation when the clock has been set back in
    between.  Saved at 02:30 and then, the clock set back by an hour, at
    02:10, the record created last is listed last. *)
Lemma history_lists_latest_record_last :
  let w := ((save "first" ;; save "second" ;; refresh_history)
              (initial clock_set_back)).2 in
  created (initial clock_set_back) 2
    = ["20241027_023000.txt"; "20241027_021000.txt"] /\
  transcripts w !! "20241027_021000.txt" = Some "second" /\
  history w = ["20241027_023000.txt"; "20241027_021000.txt"] /\
  history w <> reverse (created (initial clock_set_back) 2).
Proof. vm_compute. repeat split; discriminate. Qed.

(** C6, amended. For every state of the store, the list holds after
    [refresh_history] ten identifiers, or all of them when there are fewer:
    each names a stored record and is strictly after the next in the order
    of names, and what is left out is below all that is listed.  That order
    is the reverse of the order of creation when the records were saved,
    from an empty store, under a clock that runs forward. *)
Theorem refresh_history_descending_names (w : World) :
  (length (history (refresh_history w).2) = min 10 (size (transcripts w)) /\
   StronglySorted id_gt (history (refresh_history w).2) /\
   (forall id, id ∈ history (refresh_history w).2 -> is_Some (transcripts w !! id)) /\
   (forall id id', is_Some (transcripts w !! id) ->
      id ∉ history (refresh_history w).2 -> id' ∈ history (refresh_history w).2 ->
      id_gt id' id)) /\
  (forall texts,
     transcripts w = ∅ -> clock_runs_forward w (length texts) ->
     history ((saves texts ;; refresh_history) w).2
     = take 10 (reverse (created w (length texts)))).
Proof.
  split.
  - cbn. destruct (list_history_spec (transcripts w)) as [_ Hs].
    split; [apply length_list_history|]. split; [exact Hs|].
    split; [apply elem_of_list_history|apply list_history_greatest].
  - intros texts Hempty Hclock.
    pose proof (saves_list_history texts w Hempty Hclock) as Hlist.
    destruct (saves_spec texts w) as [Hret _]. unfold bind.
    destruct (saves texts w) as [r w1]. cbn [fst snd] in Hret, Hlist. subst r.
    exact Hlist.
Qed.

Lemma clock_seconds_runs_forward n :
  (2 * n < 100)%nat -> clock_runs_forward (initial clock_seconds) n.
Proof.
  intros Hn. split.
  - intros i Hi. unfold dt_wf, naming_instant, clock_seconds. cbn. lia.
  - intros i j Hij Hj. unfold dt_compare, naming_instant, clock_seconds.
    cbn [year month day hour minute second clock ticks initial].
    rewrite !Nat.compare_refl. apply Nat.compare_lt_iff. lia.
Qed.

(** Twelve records saved one second apart: the list shows the last ten,
    latest first. *)
Lemma twelve_saves_listed :
  history ((saves twelve_texts ;; refresh_history) (initial clock_seconds)).2
  = ["20240307_090523.txt"; "20240307_090521.txt"; "20240307_090519.txt";
     "20240307_090517.txt"; "20240307_090515.txt"; "20240307_090513.txt";
     "20240307_090511.txt"; "20240307_090509.txt"; "20240307_090507.txt";
     "20240307_090505.txt"].
Proof. vm_compute. reflexivity. Qed.

Lemma refresh_history_descending_names_witness :
  history ((saves twelve_texts ;; refresh_history) (initial clock_seconds)).2
  = take 10 (reverse (created (initial clock_seconds) (length twelve_texts))).
Proof.
  apply (proj2 (refresh_history_descending_names (initial clock_seconds))
               twelve_texts).
  - reflexivity.
  - apply clock_seconds_runs_forward. cbn. lia.
Defined.

(** *** Reading a record back *)

Lemma universal_newlines_id text :
  contains_cr text = false -> universal_newlines text = text.
Proof.
  induction text as [|c text IH]; [reflexivity|].
  cbn [contains_cr universal_newlines]. intros H.
  apply orb_false_elim in H as [Hc Hs]. rewrite Hc, IH by exact Hs. reflexivity.
Qed.

(** What is read never holds a carriage return. *)
Lemma universal_newlines_no_cr text : contains_cr (universal_newlines text) = false.
Proof.
  assert (H : forall n s, (String.length s <= n)%nat ->
                          contains_cr (universal_newlines s) = false).
  { induction n as [|n IH]; intros [|c s] Hn; try reflexivity; cbn in Hn; [lia|].
    cbn [universal_newlines]. destruct (Ascii.eqb c CR) eqn:Hc.
    - destruct s as [|c' s']; [reflexivity|]. cbn in Hn.
      destruct (Ascii.eqb c' LF); cbn [contains_cr];
        change (Ascii.eqb LF CR) with false; cbn [orb]; apply IH; cbn; lia.
    - cbn [contains_cr]. rewrite Hc. cbn [orb]. apply IH. lia. }
  apply (H (String.length text)). lia.
Qed.

(** A text is read back as it is exactly when it holds no carriage
    return. *)
Lemma universal_newlines_fixed text :
  universal_newlines text = text <-> contains_cr text = false.
Proof.
  split; [|apply universal_newlines_id].
  intros H. rewrite <- H. apply universal_newlines_no_cr.
Qed.

(** Saving, listing and opening the first entry, when no stored identifier
    is after the one of the current instant. *)
Lemma save_list_read_spec text w :
  (forall id, is_Some (transcripts w !! id) ->
              String.le id (fname_of (clock w (S (ticks w))))) ->
  (save text ;; refresh_history ;; open_history (Some 0%nat)) w
  = (Returned tt,
     set_windows (windows w ++ [universal_newlines text])
       (set_history
          (list_history (<[fname_of (clock w (S (ticks w))) := text]> (transcripts w)))
          (set_transcripts
             (<[fname_of (clock w (S (ticks w))) := text]> (transcripts w))
             (set_ticks (S (S (ticks w))) w)))) /\
  list_history (<[fname_of (clock w (S (ticks w))) := text]> (transcripts w)) !! 0%nat
  = Some (fname_of (clock w (S (ticks w)))).
Proof.
  intros Hmax. set (id := fname_of (clock w (S (ticks w)))) in *.
  assert (Hhead : list_history (<[id := text]> (transcripts w)) !! 0%nat = Some id).
  { apply list_history_head.
    - rewrite lookup_insert_eq. eauto.
    - intros x Hx. destruct (decide (id = x)) as [<-|Hd]; [reflexivity|].
      rewrite lookup_insert_ne in Hx by exact Hd. apply Hmax. exact Hx. }
  split; [|exact Hhead].
  unfold bind at 1. rewrite save_spec. fold id.
  unfold bind at 1. unfold refresh_history at 1, modify at 1.
  cbn [transcripts set_transcripts set_ticks].
  unfold open_history, bind, get, show_text, modify.
  cbn [history set_history transcripts set_transcripts set_ticks].
  rewrite Hhead. cbn [from_option Datatypes.id].
  destruct (decide (id = "")) as [He|_]; [exfalso; exact (fname_of_nonempty _ He)|].
  cbn [history set_history transcripts set_transcripts set_ticks windows].
  rewrite lookup_insert_eq. reflexivity.
Qed.

(** C5, as stated, fails, in two ways.  When the store holds a record whose
    identifier is after the one of the current instant, the first entry of
    the listing is that record, and reading it back yields its text.  And a
    text that holds a carriage return is not read back as it was written:
    the file is read in text mode, which gives a line feed in its place. *)
Lemma save_list_read_returns_other_text :
  (let '(r, w') := (save "hello" ;; refresh_history ;; open_history (Some 0%nat))
                     w_future in
   r = Returned tt /\
   history w' !! 0%nat = Some "20300101_000000.txt" /\
   windows w' = ["old"]) /\
  (let '(r, w') := (save text_cr ;; refresh_history ;; open_history (Some 0%nat))
                     (initial (fun _ => t0)) in
   r = Returned tt /\
   transcripts w' !! "20240307_090559.txt" = Some text_cr /\
   windows w' = [text_lf] /\
   text_lf <> text_cr).
Proof. vm_compute. repeat split; discriminate. Qed.

(** C5, amended. When the text holds no carriage return and no stored
    identifier is after the one derived from the current instant, saving
    the text, listing, and reading the first identifier of the listing
    shows exactly that text. *)
Theorem save_list_read_round_trip (w : World) (text : string) :
  contains_cr text = false ->
  (forall id, is_Some (transcripts w !! id) ->
              String.le id (fname_of (clock w (S (ticks w))))) ->
  exists w',
    (save text ;; refresh_history ;; open_history (Some 0%nat)) w = (Returned tt, w') /\
    history w' !! 0%nat = Some (fname_of (clock w (S (ticks w)))) /\
    transcripts w' !! fname_of (clock w (S (ticks w))) = Some text /\
    windows w' = windows w ++ [text].
Proof.
  intros Hcr Hmax. destruct (save_list_read_spec text w Hmax) as [Hrun Hhead].
  rewrite Hrun. eexists. split; [reflexivity|].
  cbn [history windows transcripts set_windows set_history set_transcripts].
  rewrite universal_newlines_id, lookup_insert_eq by exact Hcr. auto.
Qed.

Lemma save_list_read_round_trip_witness :
  exists w',
    (save "hello" ;; refresh_history ;; open_history (Some 0%nat)) w_past
    = (Returned tt, w') /\
    history w' !! 0%nat = Some (fname_of (clock w_past (S (ticks w_past)))) /\
    transcripts w' !! fname_of (clock w_past (S (ticks w_past))) = Some "hello" /\
    windows w' = windows w_past ++ ["hello"].
Proof.
  apply (save_list_read_round_trip w_past "hello").
  - reflexivity.
  - intros id [v Hv]. cbn in Hv. apply lookup_singleton_Some in Hv as [<- _].
    vm_compute. exact I.
Defined.

(** ** Capture session *)

(** Projections of updated worlds, and nothing else, are computed. *)
Tactic Notation "world_simpl" :=
  cbn [recording buffer stream level streams status language canvas history
       windows pending reported recordings transcripts clock ticks jobs
       engine_calls set_recording set_buffer set_stream set_level set_streams
       set_status set_canvas set_history set_windows set_pending set_reported
       set_recordings set_transcripts set_ticks set_jobs set_engine_calls
       fst snd negb].

Tactic Notation "world_simpl" "in" hyp(H) :=
  cbn [recording buffer stream level streams status language canvas history
       windows pending reported recordings transcripts clock ticks jobs
       engine_calls set_recording set_buffer set_stream set_level set_streams
       set_status set_canvas set_history set_windows set_pending set_reported
       set_recordings set_transcripts set_ticks set_jobs set_engine_calls
       fst snd negb] in H.

Ltac run_monad :=
  unfold stream_stop, stream_close, stream_start, stream_alter, status_set,
    draw_wave, show_text, refresh_history, wavfile_write, the_stream,
    datetime_now, callback, wave_loop;
  unfold bind, modify, get, ret, raise;
  world_simpl.

Arguments fname_of : simpl never.
Arguments list_history : simpl never.
Arguments finalize : simpl never.
Arguments level_of : simpl never.

Lemma start_record_spec w :
  start_record w =
  (Returned tt,
   set_streams (streams w ++ [StreamActive])
     (set_stream (Some (length (streams w)))
        (set_status "Recording..." (set_recording true (set_buffer [] w))))).
Proof.
  unfold start_record, start_record_with, stream_start, stream_alter, status_set,
    sd_InputStream, the_stream, bind, modify, get, ret. cbn.
  pose proof (alter_app_r
    (fun s => match s with StreamInactive => StreamActive | _ => s end)
    (streams w) [StreamInactive] 0) as H.
  rewrite Nat.add_0_r in H. cbn in H. rewrite H. reflexivity.
Qed.

(** The press that finds no device to open: the handler ends with the
    exception of the constructor, [stream] not assigned. *)
Lemma start_record_unavailable_spec w :
  start_record_with false w =
  (Raised PortAudioError,
   set_status "Recording..." (set_recording true (set_buffer [] w))).
Proof. reflexivity. Qed.

(** C7. [start_record] has no guard on [recording]: called in any state, in
    particular while a recording is running, it opens and starts one more
    stream and leaves the streams opened before as they were.  [stop_record]
    checks [recording] on entry, [start_record] does not. *)
Theorem start_record_opens_another_stream (w : World) :
  exists w',
    start_record w = (Returned tt, w') /\
    open_streams w' = S (open_streams w) /\
    stream w' = Some (length (streams w)) /\
    streams w' !! length (streams w) = Some StreamActive /\
    (forall h s, streams w !! h = Some s -> streams w' !! h = Some s).
Proof.
  rewrite start_record_spec. eexists. split; [reflexivity|]. cbn.
  split; [|split; [reflexivity|split]].
  - unfold open_streams. cbn. rewrite filter_app, length_app. cbn.
    destruct (decide (true = true)); [cbn; lia|congruence].
  - rewrite lookup_app_r by lia. rewrite Nat.sub_diag. reflexivity.
  - intros h s Hh. apply lookup_app_l_Some. exact Hh.
Qed.

(** Two presses without a release in between, from the initial state: two
    streams are open and running, and the release that follows closes only
    the second. *)
Lemma start_record_twice_leaks_a_stream :
  let w2 := ((start_record ;; start_record) (initial (fun _ => t0))).2 in
  let w3 := ((start_record ;; start_record ;; stop_record engine_hello)
               (initial (fun _ => t0))).2 in
  recording ((start_record (initial (fun _ => t0))).2) = true /\
  streams w2 = [StreamActive; StreamActive] /\ open_streams w2 = 2%nat /\
  streams w3 = [StreamActive; StreamClosed].
Proof. vm_compute. auto. Qed.

(** [stop_record] on a running recording, step by step. *)
Lemma stop_record_spec model w h :
  recording w = true -> stream w = Some h ->
  stop_record model w =
  match buffer w with
  | [] => (Returned tt, set_status "Ready" (stopped h w))
  | _ :: _ =>
      match finalize (buffer w) with
      | None => (Raised ValueError, stopped h w)
      | Some audio =>
          transcribe model record_path
            (set_recordings
               (<[record_path := {| rate := fs; samples := audio |}]> (recordings w))
               (stopped h w))
      end
  end.
Proof.
  intros Hr Hs. unfold stop_record, stop_record_in.
  unfold bind at 1. unfold get at 1. rewrite Hr. cbn [negb].
  unfold bind at 1. unfold modify at 1.
  unfold bind at 1. unfold the_stream. unfold bind at 1. unfold get at 1.
  world_simpl. rewrite Hs. unfold ret at 1.
  run_monad. fold (stopped h w). unfold transcribe.
  destruct (buffer w) as [|b bs]; [reflexivity|].
  destruct (finalize (b :: bs)) as [audio|]; [|reflexivity].
  change fs with 16000. reflexivity.
Qed.

(** C9, as stated, fails: started from the initial state and stopped with no
    block delivered, the status is "Ready", not the "Hold to record" shown
    before the start. *)
Lemma start_stop_changes_status :
  status (initial (fun _ => t0)) = "Hold to record" /\
  status ((start_record ;; stop_record engine_hello) (initial (fun _ => t0))).2
    = "Ready".
Proof. vm_compute. auto. Qed.

(** When [start_record] returns, a recording is in progress on the stream
    it has opened, with nothing collected yet. *)
Lemma start_record_with_returned opens w w' :
  start_record_with opens w = (Returned tt, w') ->
  opens = true /\ recording w' = true /\
  stream w' = Some (length (streams w)) /\ buffer w' = [].
Proof.
  destruct opens.
  - fold start_record. rewrite start_record_spec. intros [= <-]. auto.
  - rewrite start_record_unavailable_spec. discriminate.
Qed.

(** C9, amended. A recording in progress whose stream was opened, stopped
    before any block was appended, writes no audio artifact and does not run
    the pipeline: no engine call, no transcript, no job; the status is set
    to "Ready" whatever it was before the start. *)
Theorem start_stop_without_frames model (w : World) (h : nat) :
  recording w = true -> stream w = Some h -> buffer w = [] ->
  exists w',
    stop_record model w = (Returned tt, w') /\
    recordings w' = recordings w /\
    transcripts w' = transcripts w /\
    engine_calls w' = engine_calls w /\
    jobs w' = jobs w /\
    recording w' = false /\
    status w' = "Ready".
Proof.
  intros Hr Hs Hb. rewrite (stop_record_spec model w h Hr Hs), Hb.
  eexists. split; [reflexivity|]. unfold stopped. world_simpl. auto 10.
Qed.

Lemma start_stop_without_frames_witness :
  exists w',
    stop_record engine_hello (start_record (initial (fun _ => t0))).2
    = (Returned tt, w') /\
    recordings w' = recordings (start_record (initial (fun _ => t0))).2 /\
    transcripts w' = transcripts (start_record (initial (fun _ => t0))).2 /\
    engine_calls w' = engine_calls (start_record (initial (fun _ => t0))).2 /\
    jobs w' = jobs (start_record (initial (fun _ => t0))).2 /\
    recording w' = false /\
    status w' = "Ready".
Proof.
  apply (start_stop_without_frames engine_hello
           (start_record (initial (fun _ => t0))).2 0%nat); reflexivity.
Defined.

(** ** [root.update()] and the activations of [transcribe] *)

Section Update.

Variable model : option Wav -> Args -> string + string.

Lemma root_update_fuel_returns n : forall w,
  (root_update_fuel model n w).1 = Returned tt.
Proof.
  induction n as [|n IH]; intros w; cbn [root_update_fuel]; [reflexivity|].
  destruct (pending w) as [|e rest]; [reflexivity|].
  destruct (dispatch_in model (root_update_fuel model n) e (set_pending rest w))
    as [r w1].
  apply IH.
Qed.

Lemma root_update_returns w : (root_update model w).1 = Returned tt.
Proof. apply root_update_fuel_returns. Qed.

(** What a handler does with [jobs] and [pending], given what the nested
    [root.update()] does with them. *)
Section Nested.

Variable upd : M unit.

Lemma transcribe_in_jobs path w :
  (forall w0, jobs (upd w0).2 = jobs w0) ->
  jobs (transcribe_in model upd path w).2 = jobs w.
Proof.
  intros Hupd. unfold transcribe_in, in_job, model_call, save. run_monad.
  pose proof (Hupd (entered w)) as Hj. unfold entered in Hj.
  destruct (upd _) as [[u|e] w1]; world_simpl in Hj; world_simpl.
  - destruct (model _ _); world_simpl; rewrite Hj; reflexivity.
  - rewrite Hj. reflexivity.
Qed.

Lemma transcribe_in_pending path w n :
  (forall w0, (length (pending w0) <= n)%nat -> pending (upd w0).2 = []) ->
  (length (pending w) <= n)%nat ->
  pending (transcribe_in model upd path w).2 = [].
Proof.
  intros Hupd Hn. unfold transcribe_in, in_job, model_call, save. run_monad.
  pose proof (Hupd (entered w) Hn) as Hp. unfold entered in Hp.
  destruct (upd _) as [[u|e] w1]; world_simpl in Hp; world_simpl.
  - destruct (model _ _); world_simpl; exact Hp.
  - exact Hp.
Qed.

Lemma stop_record_in_jobs w :
  (forall w0, jobs (upd w0).2 = jobs w0) ->
  jobs (stop_record_in model upd w).2 = jobs w.
Proof.
  intros Hupd. unfold stop_record_in. run_monad.
  destruct (recording w); [|reflexivity]. world_simpl.
  destruct (stream w) as [h|]; [|reflexivity]. world_simpl.
  destruct (buffer w) as [|b bs]; [reflexivity|].
  destruct (finalize (b :: bs)) as [audio|]; [|reflexivity].
  rewrite transcribe_in_jobs by exact Hupd. reflexivity.
Qed.

Lemma stop_record_in_pending w n :
  (forall w0, (length (pending w0) <= n)%nat -> pending (upd w0).2 = []) ->
  (length (pending w) <= n)%nat ->
  pending (stop_record_in model upd w).2 = pending w \/
  pending (stop_record_in model upd w).2 = [].
Proof.
  intros Hupd Hn. unfold stop_record_in. run_monad.
  destruct (recording w); [|left; reflexivity]. world_simpl.
  destruct (stream w) as [h|]; [|left; reflexivity]. world_simpl.
  destruct (buffer w) as [|b bs]; [left; reflexivity|].
  destruct (finalize (b :: bs)) as [audio|]; [|left; reflexivity].
  right. apply (transcribe_in_pending _ _ n); [exact Hupd|exact Hn].
Qed.

Lemma dispatch_in_jobs e w :
  (forall w0, jobs (upd w0).2 = jobs w0) ->
  jobs (dispatch_in model upd e w).2 = jobs w.
Proof.
  intros Hupd. destruct e as [| |[i|]| |indata|]; cbn [dispatch_in].
  - rewrite start_record_spec. reflexivity.
  - apply stop_record_in_jobs. exact Hupd.
  - unfold open_history. run_monad.
    destruct (decide _); [reflexivity|].
    destruct (transcripts w !! _); reflexivity.
  - reflexivity.
  - run_monad. destruct (recording w); reflexivity.
  - run_monad. destruct (running w); [|reflexivity].
    destruct (recording w); reflexivity.
  - reflexivity.
Qed.

Lemma dispatch_in_pending e w n :
  (forall w0, (length (pending w0) <= n)%nat -> pending (upd w0).2 = []) ->
  (length (pending w) <= n)%nat ->
  pending (dispatch_in model upd e w).2 = pending w \/
  pending (dispatch_in model upd e w).2 = [].
Proof.
  intros Hupd Hn. destruct e as [| |[i|]| |indata|]; cbn [dispatch_in].
  - rewrite start_record_spec. left. reflexivity.
  - apply (stop_record_in_pending _ n); assumption.
  - left. unfold open_history. run_monad.
    destruct (decide _); [reflexivity|].
    destruct (transcripts w !! _); reflexivity.
  - left. reflexivity.
  - left. run_monad. destruct (recording w); reflexivity.
  - left. run_monad. destruct (running w); [|reflexivity].
    destruct (recording w); reflexivity.
  - left. reflexivity.
Qed.

End Nested.

Lemma root_update_fuel_jobs n : forall w,
  jobs (root_update_fuel model n w).2 = jobs w.
Proof.
  induction n as [|n IH]; intros w; cbn [root_update_fuel]; [reflexivity|].
  destruct (pending w) as [|e rest]; [reflexivity|].
  pose proof (dispatch_in_jobs (root_update_fuel model n) e (set_pending rest w) IH) as Hd.
  destruct (dispatch_in model (root_update_fuel model n) e (set_pending rest w))
    as [r w1].
  rewrite IH. destruct r; exact Hd.
Qed.

(** The bound on the number of stimuli is never what stops
    [root.update()]: it returns with nothing left pending. *)
Lemma root_update_fuel_drains n : forall w,
  (length (pending w) <= n)%nat ->
  pending (root_update_fuel model n w).2 = [].
Proof.
  induction n as [|n IH]; intros w Hn; cbn [root_update_fuel].
  - cbn [snd]. destruct (pending w); [reflexivity|cbn in Hn; lia].
  - destruct (pending w) as [|e rest] eqn:Hp; [exact Hp|]. cbn in Hn.
    assert (Hrest : (length (pending (set_pending rest w)) <= n)%nat) by (cbn; lia).
    pose proof (dispatch_in_pending (root_update_fuel model n) e
                  (set_pending rest w) n IH Hrest) as Hd.
    destruct (dispatch_in model (root_update_fuel model n) e (set_pending rest w))
      as [r w1].
    apply IH. cbn [snd] in Hd. world_simpl in Hd.
    destruct r; world_simpl; destruct Hd as [-> | ->]; cbn; lia.
Qed.

Lemma root_update_jobs w : jobs (root_update model w).2 = jobs w.
Proof. apply root_update_fuel_jobs. Qed.

Lemma root_update_drains w : pending (root_update model w).2 = [].
Proof. apply root_update_fuel_drains. reflexivity. Qed.

Lemma root_update_idle w : pending w = [] -> root_update model w = (Returned tt, w).
Proof. intros H. unfold root_update. rewrite H. reflexivity. Qed.

Lemma at_engine_jobs w : jobs (at_engine model w) = S (jobs w).
Proof. unfold at_engine. rewrite root_update_jobs. reflexivity. Qed.

Lemma at_engine_idle w : pending w = [] -> at_engine model w = entered w.
Proof.
  intros H. unfold at_engine. rewrite root_update_idle; [reflexivity|exact H].
Qed.

(** [transcribe], step by step. *)
Lemma transcribe_in_spec upd path w w1 :
  upd (entered w) = (Returned tt, w1) ->
  transcribe_in model upd path w =
  match model (recordings w1 !! path) (make_args (language w1)) with
  | inl text => (Returned tt, stored path text w1)
  | inr msg => (Raised (EngineError msg), failed path w1)
  end.
Proof.
  intros Hupd. unfold transcribe_in, in_job, status_set.
  unfold bind at 1. unfold modify at 1. fold (entered w).
  unfold bind at 1. rewrite Hupd.
  unfold bind at 1. unfold get at 1.
  unfold bind at 1. unfold model_call.
  destruct (model (recordings w1 !! path) (make_args (language w1))) as [text|msg].
  - unfold save, stored. run_monad. reflexivity.
  - unfold failed. world_simpl. reflexivity.
Qed.

Lemma transcribe_spec path w :
  transcribe model path w =
  match model (recordings (at_engine model w) !! path)
              (make_args (language (at_engine model w))) with
  | inl text => (Returned tt, stored path text (at_engine model w))
  | inr msg => (Raised (EngineError msg), failed path (at_engine model w))
  end.
Proof.
  apply transcribe_in_spec. unfold at_engine.
  rewrite (surjective_pairing (root_update model (entered w))) at 1.
  rewrite root_update_returns. reflexivity.
Qed.

End Update.

(** ** Stopping a recording *)





(** ** Transcription pipeline *)

(** C1, as stated, fails.  A call of [transcribe] made while a job is in
    flight is not refused: it returns normally.  Such a call is reached
    from the initial state when a press, a block and a release are pending
    at the [root.update()] of the first job: no handler raises, and the
    engine is called once with two jobs in flight. *)
Lemma transcribe_reentered_while_in_flight :
  pipeline_state (entered (initial (fun _ => t0))) = InFlight /\
  (transcribe engine_hello record_path (entered (initial (fun _ => t0)))).1
    = Returned tt /\
  let '(r, w) := (start_record ;; callback [f1_0] ;; stop_record engine_hello)
                   w_impatient in
  r = Returned tt /\ reported w = [] /\
  call_depth <$> engine_calls w = [2%nat; 1%nat].
Proof. vm_compute. auto. Qed.

(** C1, amended. [transcribe] keeps no in-flight state and refuses no call:
    whatever the number of jobs already in flight, when the engine returns a
    text the call returns normally, the text is stored under the identifier
    of the current instant, and the number of jobs in flight is afterwards
    what it was on entry; during the call it is one more, without bound. *)
Theorem transcribe_never_refuses model (path : string) (w : World) (text : string) :
  model (recordings (at_engine model w) !! path)
        (make_args (language (at_engine model w))) = inl text ->
  exists w',
    transcribe model path w = (Returned tt, w') /\
    jobs w' = jobs w /\
    status w' = "Hold to record" /\
    transcripts w' !! fname_of (clock (at_engine model w) (S (ticks (at_engine model w))))
      = Some text /\
    call_depth <$> last (engine_calls w') = Some (S (jobs w)).
Proof.
  intros Hm. rewrite transcribe_spec, Hm. eexists. split; [reflexivity|].
  unfold stored. world_simpl. rewrite at_engine_jobs.
  split; [reflexivity|]. split; [reflexivity|].
  split; [apply lookup_insert_eq|]. rewrite last_snoc. reflexivity.
Qed.

Lemma transcribe_never_refuses_witness :
  exists w',
    transcribe engine_hello record_path (entered (initial (fun _ => t0)))
      = (Returned tt, w') /\
    jobs w' = jobs (entered (initial (fun _ => t0))) /\
    status w' = "Hold to record" /\
    transcripts w' !! fname_of (clock (at_engine engine_hello (entered (initial (fun _ => t0))))
                                  (S (ticks (at_engine engine_hello (entered (initial (fun _ => t0)))))))
      = Some "hello" /\
    call_depth <$> last (engine_calls w') = Some (S (jobs (entered (initial (fun _ => t0))))).
Proof.
  apply (transcribe_never_refuses engine_hello record_path
           (entered (initial (fun _ => t0))) "hello").
  reflexivity.
Defined.



(** The sibling path: when the engine returns, the status is set back. *)
Lemma transcribe_success_resets_status :
  status (transcribe engine_hello record_path (initial (fun _ => t0))).2
    = "Hold to record" /\
  status (transcribe engine_broken record_path (initial (fun _ => t0))).2
    = "Transcribing...".
Proof. vm_compute. auto. Qed.

(** * Further properties of the handlers *)

(** ** The shape of the handlers that reach [root.update()] *)

Section Shapes.

Variable model : option Wav -> Args -> string + string.
Variable upd : M unit.

Lemma transcribe_in_shape path w :
  transcribe_in model upd path w =
  match upd (entered w) with
  | (Returned _, w1) =>
      match model (recordings w1 !! path) (make_args (language w1)) with
      | inl text => (Returned tt, stored path text w1)
      | inr msg => (Raised (EngineError msg), failed path w1)
      end
  | (Raised e, w1) => (Raised e, set_jobs (Nat.pred (jobs w1)) w1)
  end.
Proof.
  destruct (upd (entered w)) as [[u|e] w1] eqn:Hupd.
  - destruct u. apply transcribe_in_spec. exact Hupd.
  - unfold transcribe_in, in_job, status_set.
    unfold bind at 1. unfold modify at 1. fold (entered w).
    unfold bind at 1. rewrite Hupd. reflexivity.
Qed.

Lemma stop_record_in_shape w :
  stop_record_in model upd w =
  if recording w then
    match stream w with
    | None => (Raised AttributeError, set_recording false w)
    | Some h =>
        match buffer w with
        | [] => (Returned tt, set_status "Ready" (stopped h w))
        | _ :: _ =>
            match finalize (buffer w) with
            | None => (Raised ValueError, stopped h w)
            | Some audio =>
                transcribe_in model upd record_path
                  (set_recordings
                     (<[record_path := {| rate := fs; samples := audio |}]>
                        (recordings w))
                     (stopped h w))
            end
        end
    end
  else (Returned tt, w).
Proof.
  unfold stop_record_in.
  unfold bind at 1. unfold get at 1.
  destruct (recording w) eqn:Hr; cbn [negb]; [|reflexivity].
  unfold bind at 1. unfold modify at 1.
  unfold bind at 1. unfold the_stream. unfold bind at 1. unfold get at 1.
  world_simpl. destruct (stream w) as [h|] eqn:Hs; [|reflexivity].
  unfold ret at 1.
  run_monad. fold (stopped h w).
  destruct (buffer w) as [|b bs]; [reflexivity|].
  destruct (finalize (b :: bs)) as [audio|]; [|reflexivity].
  change fs with 16000. reflexivity.
Qed.

Lemma open_history_shape sel w :
  open_history sel w =
  match sel with
  | None => (Returned tt, w)
  | Some i =>
      if decide (default "" (history w !! i) = "")
      then (Raised IsADirectoryError, w)
      else match transcripts w !! default "" (history w !! i) with
           | Some text =>
               (Returned tt, set_windows (windows w ++ [universal_newlines text]) w)
           | None => (Raised FileNotFoundError, w)
           end
  end.
Proof.
  destruct sel as [i|]; [|reflexivity].
  unfold open_history. run_monad.
  destruct (decide _); [reflexivity|].
  destruct (transcripts w !! _); reflexivity.
Qed.

Lemma callback_shape indata w :
  callback indata w =
  if recording w
  then (Returned tt, set_level (level_of indata) (set_buffer (buffer w ++ [indata]) w))
  else (Returned tt, w).
Proof. unfold callback. run_monad. destruct (recording w); reflexivity. Qed.

Lemma wave_loop_shape w :
  wave_loop w =
  if recording w then (Returned tt, set_canvas (Some (level w)) w)
  else (Returned tt, w).
Proof. unfold wave_loop. run_monad. destruct (recording w); reflexivity. Qed.

Lemma dispatch_in_shape e w :
  dispatch_in model upd e w =
  match e with
  | ButtonPress1 => start_record w
  | ButtonRelease1 => stop_record_in model upd w
  | DoubleButton1 sel => open_history sel w
  | WaveTimer => wave_loop w
  | AudioCallback indata =>
      if running w then callback indata w else (Returned tt, w)
  | ButtonPress1_unavailable => start_record_with false w
  end.
Proof.
  destruct e; try reflexivity. cbn [dispatch_in]. run_monad.
  destruct (running w); reflexivity.
Qed.

End Shapes.

(** ** Relations kept by every stimulus *)

Section Kept.

Variable model : option Wav -> Args -> string + string.
Variable P : World -> World -> Prop.
Hypothesis P_refl : forall w, P w w.
Hypothesis P_trans : forall a b c, P a b -> P b c -> P a c.
Hypothesis P_pending : forall v w, P w (set_pending v w).
Hypothesis P_step : forall upd,
  (forall w, (upd w).1 = Returned tt) -> (forall w, P w (upd w).2) ->
  forall e w, P w (settled (dispatch_in model upd e w).1 (dispatch_in model upd e w).2).

Lemma root_update_fuel_kept n : forall w, P w (root_update_fuel model n w).2.
Proof.
  induction n as [|n IH]; intros w; cbn [root_update_fuel]; [apply P_refl|].
  destruct (pending w) as [|e rest]; [apply P_refl|].
  pose proof (P_step (root_update_fuel model n) (root_update_fuel_returns model n)
                IH e (set_pending rest w)) as Hd.
  destruct (dispatch_in model (root_update_fuel model n) e (set_pending rest w))
    as [r w1].
  eapply P_trans; [apply (P_pending rest)|].
  eapply P_trans; [exact Hd|]. apply IH.
Qed.

Lemma root_update_kept w : P w (root_update model w).2.
Proof. apply root_update_fuel_kept. Qed.

Lemma mainloop_kept batches : forall w, P w (mainloop model batches w).
Proof.
  induction batches as [|batch batches IH]; intros w; [apply P_refl|].
  unfold mainloop. cbn [foldl]. fold (mainloop model batches).
  eapply P_trans; [|apply IH].
  eapply P_trans; [apply (P_pending (pending w ++ batch))|apply root_update_kept].
Qed.

End Kept.

(** Case analysis of one stimulus, down to the worlds it can leave. *)
Ltac dispatch_cases model upd Hret Hupd e w :=
  rewrite dispatch_in_shape; destruct e as [| |sel| |indata|];
  [ rewrite start_record_spec
  | rewrite stop_record_in_shape; destruct (recording w) eqn:Hr;
    [ destruct (stream w) as [h|] eqn:Hs;
      [ destruct (buffer w) as [|b bs] eqn:Hb;
        [ | destruct (finalize (b :: bs)) as [audio|] eqn:Hf;
            [ rewrite transcribe_in_shape;
              match goal with
              | |- context [upd (entered ?w0)] =>
                  pose proof (Hupd (entered w0)) as Hw1;
                  pose proof (Hret (entered w0)) as Hr1;
                  destruct (upd (entered w0)) as [[u|ex] w1];
                  [ destruct (model (recordings w1 !! record_path)
                                    (make_args (language w1))) as [text|msg]
                  | discriminate Hr1 ]
              end
            | ] ]
      | ]
    | ]
  | rewrite open_history_shape; destruct sel as [i|];
    [ destruct (decide (default "" (history w !! i) = "")) as [He|He];
      [ | destruct (transcripts w !! default "" (history w !! i)) as [text|] eqn:Ht ]
    | ]
  | rewrite wave_loop_shape; destruct (recording w) eqn:Hr
  | destruct (running w);
    [ rewrite callback_shape; destruct (recording w) eqn:Hr | ]
  | rewrite start_record_unavailable_spec ];
  cbn [fst snd settled] in *.

(** ** What no stimulus undoes *)

Lemma keeps_refl w : keeps w w.
Proof. unfold keeps. repeat split; auto. Qed.

Lemma keeps_trans a b c : keeps a b -> keeps b c -> keeps a c.
Proof.
  intros (T1 & R1 & W1 & E1 & K1 & C1 & L1) (T2 & R2 & W2 & E2 & K2 & C2 & L2).
  unfold keeps. repeat split.
  - auto.
  - intros p Hp. destruct (R2 p Hp) as [->|Hp']; auto.
  - etrans; eassumption.
  - etrans; eassumption.
  - lia.
  - congruence.
  - congruence.
Qed.

Lemma keeps_frame w w' :
  transcripts w' = transcripts w -> recordings w' = recordings w ->
  windows w' = windows w -> engine_calls w' = engine_calls w ->
  ticks w' = ticks w -> clock w' = clock w -> language w' = language w ->
  keeps w w'.
Proof.
  intros HT HR HW HE HK HC HL. unfold keeps.
  rewrite HT, HR, HW, HE, HK, HC, HL. repeat split; auto.
Qed.

Lemma keeps_stored path text w : keeps w (stored path text w).
Proof.
  unfold keeps, stored. world_simpl.
  repeat split; auto; try lia; try (apply prefix_app_r; reflexivity).
  intros id Hid. apply lookup_insert_is_Some'. auto.
Qed.

Lemma keeps_failed path w : keeps w (failed path w).
Proof.
  unfold keeps, failed. world_simpl.
  repeat split; auto; try (apply prefix_app_r; reflexivity).
Qed.

Lemma keeps_wrote audio w :
  keeps w (set_recordings (<[record_path := audio]> (recordings w)) w).
Proof.
  unfold keeps. world_simpl. repeat split; auto.
  intros p Hp. apply lookup_insert_is_Some' in Hp as [Hp|Hp]; auto.
Qed.

Lemma keeps_step model upd :
  (forall w, (upd w).1 = Returned tt) -> (forall w, keeps w (upd w).2) ->
  forall e w, keeps w (settled (dispatch_in model upd e w).1
                               (dispatch_in model upd e w).2).
Proof.
  intros Hret Hupd e w. dispatch_cases model upd Hret Hupd e w;
    try (apply keeps_frame; reflexivity).
  - eapply keeps_trans; [apply (keeps_wrote {| rate := fs; samples := audio |})|].
    eapply keeps_trans; [|apply keeps_stored].
    eapply keeps_trans; [|exact Hw1]. apply keeps_frame; reflexivity.
  - eapply keeps_trans; [apply (keeps_wrote {| rate := fs; samples := audio |})|].
    eapply keeps_trans; [|apply keeps_frame; reflexivity].
    eapply keeps_trans; [|apply (keeps_failed record_path)].
    eapply keeps_trans; [|exact Hw1]. apply keeps_frame; reflexivity.
  - unfold keeps. world_simpl.
    repeat split; auto; try (apply prefix_app_r; reflexivity).
Qed.

Lemma keeps_pending v w : keeps w (set_pending v w).
Proof. apply keeps_frame; reflexivity. Qed.

(** X1. Whatever stimuli are handled, and however the handlers end, nothing
    stored is removed: every transcript identifier, every text shown and
    every engine call of before is still there; the only audio file written
    is [record.wav]; the clock and the language are not touched. *)
Theorem stimuli_keep_what_is_stored model (w : World) :
  keeps w (root_update model w).2.
Proof.
  apply root_update_kept.
  - apply keeps_refl.
  - apply keeps_trans.
  - apply keeps_pending.
  - apply keeps_step.
Qed.

(** ** The capture session stays consistent *)

Lemma session_ok_frame w w' :
  recording w' = recording w -> stream w' = stream w -> streams w' = streams w ->
  session_ok w -> session_ok w'.
Proof. unfold session_ok. intros -> -> ->. auto. Qed.

Lemma session_ok_stopped h w : session_ok w -> session_ok (stopped h w).
Proof.
  unfold session_ok, stopped. world_simpl. intros [H1 _]. split; [|discriminate].
  intros h' Hh'. rewrite !length_alter. auto.
Qed.

Lemma session_ok_started w :
  session_ok
    (set_streams (streams w ++ [StreamActive])
       (set_stream (Some (length (streams w)))
          (set_status "Recording..." (set_recording true (set_buffer [] w))))).
Proof.
  unfold session_ok. world_simpl. split.
  - intros h [= <-]. rewrite length_app. cbn. lia.
  - intros _. eexists. split; [reflexivity|].
    rewrite lookup_app_r by lia. rewrite Nat.sub_diag. reflexivity.
Qed.

(** The invariant of the event loop: the session is consistent and no
    handler has failed on a missing stream, as long as every press has found
    a device to open. *)
Lemma session_kept_refl w : session_kept w w.
Proof. split; auto. Qed.

Lemma session_kept_trans a b c :
  session_kept a b -> session_kept b c -> session_kept a c.
Proof.
  intros [M1 K1] [M2 K2]. split; [auto|].
  intros Hc Ha. apply K2; [exact Hc|]. apply K1; [|exact Ha].
  intros Hb. apply Hc, M2, Hb.
Qed.

Lemma session_kept_frame w w' :
  recording w' = recording w -> stream w' = stream w -> streams w' = streams w ->
  reported w' = reported w -> session_kept w w'.
Proof.
  intros Hr Hs Hss Hrep. split; [rewrite Hrep; auto|].
  intros _ [Hok Hno]. rewrite Hrep. split; [|exact Hno].
  eapply session_ok_frame; [exact Hr|exact Hs|exact Hss|exact Hok].
Qed.

Lemma session_kept_report ex w w' :
  recording w' = recording w -> stream w' = stream w -> streams w' = streams w ->
  reported w' = reported w ++ [ex] -> ex <> AttributeError -> session_kept w w'.
Proof.
  intros Hr Hs Hss Hrep Hex. split.
  - intros ex' Hin. rewrite Hrep. apply elem_of_app. auto.
  - intros _ [Hok Hno]. split.
    + eapply session_ok_frame; [exact Hr|exact Hs|exact Hss|exact Hok].
    + rewrite Hrep. intros Hin. apply elem_of_app in Hin as [Hin|Hin]; [auto|].
      apply list_elem_of_singleton in Hin. congruence.
Qed.

Lemma session_kept_unavailable w w' :
  reported w' = reported w ++ [PortAudioError] -> session_kept w w'.
Proof.
  intros Hrep. split.
  - intros ex Hin. rewrite Hrep. apply elem_of_app. auto.
  - intros Hpa. exfalso. apply Hpa. rewrite Hrep. apply elem_of_app. right.
    apply list_elem_of_here.
Qed.

Lemma session_kept_stopped h w : session_kept w (stopped h w).
Proof.
  split; [auto|]. intros _ [Hok Hno]. split; [|exact Hno].
  apply session_ok_stopped. exact Hok.
Qed.

Lemma session_kept_started w :
  session_kept w
    (set_streams (streams w ++ [StreamActive])
       (set_stream (Some (length (streams w)))
          (set_status "Recording..." (set_recording true (set_buffer [] w))))).
Proof.
  split; [auto|]. intros _ [_ Hno]. split; [apply session_ok_started|exact Hno].
Qed.

Lemma session_kept_pending v w : session_kept w (set_pending v w).
Proof. apply session_kept_frame; reflexivity. Qed.

Lemma session_step model upd :
  (forall w, (upd w).1 = Returned tt) ->
  (forall w, session_kept w (upd w).2) ->
  forall e w,
    session_kept w (settled (dispatch_in model upd e w).1 (dispatch_in model upd e w).2).
Proof.
  intros Hret Hupd e w.
  dispatch_cases model upd Hret Hupd e w;
    try (apply session_kept_frame; reflexivity);
    try (eapply session_kept_report; [reflexivity..|discriminate]).
  - apply session_kept_started.
  - eapply session_kept_trans; [apply (session_kept_stopped h)|].
    apply session_kept_frame; reflexivity.
  - eapply session_kept_trans; [apply (session_kept_stopped h)|].
    eapply session_kept_trans; [|eapply session_kept_trans; [exact Hw1|]];
      apply session_kept_frame; reflexivity.
  - eapply session_kept_trans; [apply (session_kept_stopped h)|].
    eapply session_kept_trans; [|eapply session_kept_trans; [exact Hw1|]];
      [apply session_kept_frame; reflexivity|].
    eapply session_kept_report; [reflexivity..|discriminate].
  - eapply session_kept_trans; [apply (session_kept_stopped h)|].
    eapply session_kept_report; [reflexivity..|discriminate].
  - split.
    + intros ex Hin. world_simpl. apply elem_of_app. auto.
    + intros _ [[_ Hrec] _]. destruct (Hrec Hr) as (h & Hh & _). congruence.
  - apply session_kept_unavailable. reflexivity.
Qed.

(** X2. In every state the main loop reaches from the initial state,
    whatever the stimuli and however they are batched, as long as no press
    has found the input device unavailable (no [PortAudioError] has been
    reported): the global [stream] names a stream of the device and is
    running whenever [recording] is set, and [stop_record] has never failed
    on a missing stream (no [AttributeError] has been reported). *)
Theorem session_consistent_when_reached model (c : nat -> DateTime)
    (batches : list (list Stimulus)) :
  PortAudioError ∉ reported (mainloop model batches (initial c)) ->
  session_ok (mainloop model batches (initial c)) /\
  AttributeError ∉ reported (mainloop model batches (initial c)).
Proof.
  intros Hpa.
  destruct (mainloop_kept model session_kept session_kept_refl session_kept_trans
              session_kept_pending (session_step model) batches (initial c))
    as [_ Hkept].
  apply Hkept; [exact Hpa|]. split.
  - unfold session_ok. cbn. split; discriminate.
  - cbn. apply not_elem_of_nil.
Qed.

Lemma session_consistent_when_reached_witness :
  session_ok (mainloop engine_hello two_clips (initial (fun _ => t0))) /\
  AttributeError ∉ reported (mainloop engine_hello two_clips (initial (fun _ => t0))).
Proof.
  apply (session_consistent_when_reached engine_hello (fun _ => t0) two_clips).
  replace (reported (mainloop engine_hello two_clips (initial (fun _ => t0))))
    with (@nil Exn) by (vm_compute; reflexivity).
  apply not_elem_of_nil.
Defined.

(** X22. A press that finds no input device to open leaves the handler with
    the exception of the constructor after the buffer is cleared,
    [recording] set and the status changed, and before [stream] is
    assigned.  When no stream was assigned before, the release that follows
    fails on the missing stream, after clearing [recording]: nothing is
    written or transcribed and the status stays at "Recording...". *)
Theorem press_without_device model (w : World) :
  stream w = None ->
  exists w1 w2,
    start_record_with false w = (Raised PortAudioError, w1) /\
    recording w1 = true /\ stream w1 = None /\ buffer w1 = [] /\
    streams w1 = streams w /\ status w1 = "Recording..." /\
    stop_record model w1 = (Raised AttributeError, w2) /\
    recording w2 = false /\ status w2 = "Recording..." /\
    streams w2 = streams w /\ recordings w2 = recordings w /\
    transcripts w2 = transcripts w /\ engine_calls w2 = engine_calls w.
Proof.
  intros Hs. rewrite start_record_unavailable_spec. eexists. eexists.
  split; [reflexivity|]. world_simpl. repeat (split; [reflexivity|]).
  split; [exact Hs|]. repeat (split; [reflexivity|]).
  unfold stop_record. rewrite stop_record_in_shape. world_simpl. rewrite Hs.
  split; [reflexivity|]. world_simpl. auto 10.
Qed.

Lemma press_without_device_witness :
  exists w1 w2,
    start_record_with false (initial (fun _ => t0)) = (Raised PortAudioError, w1) /\
    recording w1 = true /\ stream w1 = None /\ buffer w1 = [] /\
    streams w1 = streams (initial (fun _ => t0)) /\ status w1 = "Recording..." /\
    stop_record engine_hello w1 = (Raised AttributeError, w2) /\
    recording w2 = false /\ status w2 = "Recording..." /\
    streams w2 = streams (initial (fun _ => t0)) /\
    recordings w2 = recordings (initial (fun _ => t0)) /\
    transcripts w2 = transcripts (initial (fun _ => t0)) /\
    engine_calls w2 = engine_calls (initial (fun _ => t0)).
Proof.
  apply (press_without_device engine_hello (initial (fun _ => t0))).
  reflexivity.
Defined.

(** The same through the main loop: both exceptions are reported. *)
Lemma mainloop_without_device :
  let w := mainloop engine_hello no_device (initial (fun _ => t0)) in
  reported w = [PortAudioError; AttributeError] /\
  recording w = false /\ status w = "Recording...".
Proof. vm_compute. auto. Qed.

(** ** The history list and the store *)

Lemma history_ok_frame w w' :
  history w' = history w -> transcripts w' = transcripts w ->
  history_ok w -> history_ok w'.
Proof. unfold history_ok. intros -> ->. auto. Qed.

Lemma history_ok_stored path text w : history_ok w -> history_ok (stored path text w).
Proof.
  unfold history_ok, stored. world_simpl. intros [_ Hempty]. split.
  - apply elem_of_list_history.
  - rewrite lookup_insert_ne; [exact Hempty|apply fname_of_nonempty].
Qed.

Lemma history_step model upd :
  (forall w, (upd w).1 = Returned tt) ->
  (forall w, history_ok w -> history_ok (upd w).2) ->
  forall e w,
    history_ok w ->
    history_ok (settled (dispatch_in model upd e w).1 (dispatch_in model upd e w).2).
Proof.
  intros Hret Hupd e w Hok.
  dispatch_cases model upd Hret Hupd e w;
    try (eapply history_ok_frame; [..|exact Hok]; reflexivity).
  - apply history_ok_stored. apply Hw1.
    eapply history_ok_frame; [..|exact Hok]; reflexivity.
  - eapply history_ok_frame; [..|apply Hw1]; [reflexivity|reflexivity|].
    eapply history_ok_frame; [..|exact Hok]; reflexivity.
Qed.

Lemma open_history_listed w i name :
  history_ok w -> history w !! i = Some name ->
  exists text,
    transcripts w !! name = Some text /\
    open_history (Some i) w
    = (Returned tt, set_windows (windows w ++ [universal_newlines text]) w).
Proof.
  intros [Hlisted Hempty] Hi.
  destruct (Hlisted name) as [text Ht]; [eapply list_elem_of_lookup_2; exact Hi|].
  exists text. split; [exact Ht|].
  rewrite open_history_shape, Hi. cbn [from_option id].
  destruct (decide (name = "")) as [->|_]; [congruence|].
  rewrite Ht. reflexivity.
Qed.

(** X3. Once the history list shows stored records only (as it does at
    start, after the first [refresh_history]), it does so in every state
    reached, whatever the stimuli: each entry can be opened, a double click
    on it returns normally and shows the text stored under that identifier
    as it is read in text mode, a line feed standing for each carriage
    return and for each carriage return followed by a line feed; nothing
    else changes.  What is shown is the stored text itself exactly when that
    text holds no carriage return. *)
Theorem listed_entries_open model (w : World) (i : nat) (name : string) :
  history_ok w ->
  history (root_update model w).2 !! i = Some name ->
  exists text,
    transcripts (root_update model w).2 !! name = Some text /\
    open_history (Some i) (root_update model w).2
    = (Returned tt,
       set_windows (windows (root_update model w).2 ++ [universal_newlines text])
                   (root_update model w).2) /\
    (universal_newlines text = text <-> contains_cr text = false).
Proof.
  intros Hok Hi.
  assert (Hok' : history_ok (root_update model w).2).
  { revert Hok.
    apply (root_update_kept model (fun w w' => history_ok w -> history_ok w')).
    - auto.
    - auto.
    - intros v w0 Hok. eapply history_ok_frame; [..|exact Hok]; reflexivity.
    - apply history_step. }
  destruct (open_history_listed _ i name Hok' Hi) as (text & Ht & Hopen).
  exists text. split; [exact Ht|]. split; [exact Hopen|].
  apply universal_newlines_fixed.
Qed.

Lemma listed_entries_open_witness :
  exists text,
    transcripts (root_update engine_hello (set_pending one_clip (initial (fun _ => t0)))).2
      !! "20240307_090559.txt" = Some text /\
    open_history (Some 0%nat)
      (root_update engine_hello (set_pending one_clip (initial (fun _ => t0)))).2
    = (Returned tt,
       set_windows
         (windows (root_update engine_hello
                     (set_pending one_clip (initial (fun _ => t0)))).2
          ++ [universal_newlines text])
         (root_update engine_hello (set_pending one_clip (initial (fun _ => t0)))).2) /\
    (universal_newlines text = text <-> contains_cr text = false).
Proof.
  apply (listed_entries_open engine_hello
           (set_pending one_clip (initial (fun _ => t0))) 0%nat "20240307_090559.txt").
  - split; [|reflexivity]. intros x Hx. apply elem_of_nil in Hx. contradiction.
  - vm_compute. reflexivity.
Defined.

(** A record whose text holds a carriage return is shown with a line feed
    in its place. *)
Lemma open_history_shows_line_feed :
  windows (open_history (Some 0%nat)
             (refresh_history
                (set_transcripts {["20240307_090559.txt" := text_cr]}
                   (initial (fun _ => t0)))).2).2
  = [text_lf].
Proof. vm_compute. reflexivity. Qed.

(** X4. The history list stays up to date: once it is the listing of the
    store (as it is at start), it is the listing of the store in every state
    reached, whatever the stimuli, hence at most ten identifiers in strictly
    descending order. *)
Theorem history_stays_in_sync model (w : World) :
  history w = list_history (transcripts w) ->
  history (root_update model w).2
  = list_history (transcripts (root_update model w).2).
Proof.
  apply (root_update_kept model
           (fun w w' => history w = list_history (transcripts w) ->
                        history w' = list_history (transcripts w'))).
  - auto.
  - auto.
  - auto.
  - intros upd Hret Hupd e w0 Hok.
    dispatch_cases model upd Hret Hupd e w0; world_simpl; try exact Hok.
    + unfold stored. world_simpl. reflexivity.
    + unfold failed. world_simpl. apply Hw1. unfold entered. world_simpl. exact Hok.
Qed.

Lemma history_stays_in_sync_witness :
  history (root_update engine_hello (set_pending one_clip (refresh_history w_future).2)).2
  = list_history
      (transcripts (root_update engine_hello (set_pending one_clip (refresh_history w_future).2)).2).
Proof.
  apply (history_stays_in_sync engine_hello (set_pending one_clip (refresh_history w_future).2)).
  vm_compute. reflexivity.
Defined.

(** ** Capture session, handler by handler *)

(** X5. [stop_record] on an idle session does nothing at all: it returns
    and the state is what it was, with no artifact, no engine call and no
    change of status. *)
Theorem stop_record_idle_is_noop model (w : World) :
  recording w = false -> stop_record model w = (Returned tt, w).
Proof.
  intros Hr. unfold stop_record. rewrite stop_record_in_shape, Hr. reflexivity.
Qed.

Lemma stop_record_idle_is_noop_witness :
  stop_record engine_hello (initial (fun _ => t0))
  = (Returned tt, initial (fun _ => t0)).
Proof.
  apply (stop_record_idle_is_noop engine_hello (initial (fun _ => t0))).
  reflexivity.
Defined.

Lemma deliver_snoc blocks b w :
  deliver (blocks ++ [b]) w = (callback b (deliver blocks w)).2.
Proof. unfold deliver. rewrite foldl_snoc. reflexivity. Qed.

(** X6. A recording holds exactly the blocks delivered since its start, in
    the order of their arrival: [start_record] discards what an earlier
    recording left in the buffer, and each callback appends its block; the
    level is the one of the last block. *)
Theorem recording_collects_blocks (w : World) (blocks : list Block) :
  buffer (deliver blocks (start_record w).2) = blocks /\
  recording (deliver blocks (start_record w).2) = true /\
  level (deliver blocks (start_record w).2)
  = default (level w) (level_of <$> last blocks).
Proof.
  rewrite start_record_spec. cbn [snd].
  induction blocks as [|b blocks IH] using rev_ind.
  - cbn. auto.
  - destruct IH as (Hb & Hr & _). rewrite deliver_snoc, callback_shape, Hr.
    world_simpl. rewrite Hb, last_snoc. auto.
Qed.

(** X7. Blocks the audio thread delivers while no recording is running are
    dropped: the state does not change. *)
Theorem idle_session_drops_blocks (w : World) (blocks : list Block) :
  recording w = false -> deliver blocks w = w.
Proof.
  intros Hr. induction blocks as [|b blocks IH] using rev_ind; [reflexivity|].
  rewrite deliver_snoc, IH, callback_shape, Hr. reflexivity.
Qed.

Lemma idle_session_drops_blocks_witness :
  deliver [[f0_5]; [f1_0]] (initial (fun _ => t0)) = initial (fun _ => t0).
Proof.
  apply (idle_session_drops_blocks (initial (fun _ => t0)) [[f0_5]; [f1_0]]).
  reflexivity.
Defined.

(** X8. A recording whose blocks hold no sample at all ends in the
    [ValueError] of [np.max]: the session is stopped and its stream closed,
    but no artifact is written, the engine is not called and the status is
    left as it was. *)
Theorem stop_record_without_samples model (w : World) (h : nat) :
  recording w = true -> stream w = Some h ->
  buffer w <> [] -> np_concatenate (buffer w) = [] ->
  stop_record model w = (Raised ValueError, stopped h w) /\
  recordings (stopped h w) = recordings w /\
  engine_calls (stopped h w) = engine_calls w /\
  status (stopped h w) = status w.
Proof.
  intros Hr Hs Hne Hcat. split; [|auto].
  rewrite (stop_record_spec model w h Hr Hs).
  destruct (buffer w) as [|b bs] eqn:Hb; [contradiction|].
  unfold finalize. rewrite Hcat. reflexivity.
Qed.

Lemma stop_record_without_samples_witness :
  stop_record engine_hello w_empty_block
  = (Raised ValueError, stopped 0%nat w_empty_block) /\
  recordings (stopped 0%nat w_empty_block) = recordings w_empty_block /\
  engine_calls (stopped 0%nat w_empty_block) = engine_calls w_empty_block /\
  status (stopped 0%nat w_empty_block) = status w_empty_block.
Proof.
  apply (stop_record_without_samples engine_hello w_empty_block 0%nat).
  - reflexivity.
  - reflexivity.
  - discriminate.
  - reflexivity.
Defined.

(** ** One run of the pipeline *)

(** X9. Every activation of [transcribe] calls the engine exactly once,
    whether it then succeeds or raises: on the file at [path] as it is at
    that moment, with task "transcribe", without conditioning on previous
    text, and with the selected language unless that is "auto". *)
Theorem transcribe_calls_engine_once model (path : string) (w : World) :
  engine_calls (transcribe model path w).2
  = engine_calls (at_engine model w) ++
    [{| call_audio := recordings (at_engine model w) !! path;
        call_args :=
          {| task := "transcribe";
             condition_on_previous_text := false;
             language_arg :=
               if decide (language (at_engine model w) = "auto") then None
               else Some (language (at_engine model w)) |};
        call_depth := S (jobs w) |}].
Proof.
  rewrite transcribe_spec. rewrite <- (at_engine_jobs model w).
  destruct (model _ _); reflexivity.
Qed.

(** X10. A press, blocks and a release, end to end: when the recording
    holds samples, nothing else is pending and the engine returns a text
    for the artifact, [stop_record] returns normally; the artifact is in
    [record.wav] at 16 kHz, the engine was called once on it, the text is
    stored under the identifier of the current instant, shown in a window
    and listed, and the status is "Hold to record". *)
Theorem stop_record_transcribes model (w : World) (h : nat)
    (pcm : list int16) (text : string) :
  recording w = true -> stream w = Some h -> pending w = [] ->
  buffer w <> [] -> finalize (buffer w) = Some pcm ->
  model (Some {| rate := 16000; samples := pcm |}) (make_args (language w))
    = inl text ->
  exists w',
    stop_record model w = (Returned tt, w') /\
    recording w' = false /\
    recordings w' !! record_path = Some {| rate := 16000; samples := pcm |} /\
    engine_calls w'
    = engine_calls w ++
      [{| call_audio := Some {| rate := 16000; samples := pcm |};
          call_args := make_args (language w);
          call_depth := S (jobs w) |}] /\
    transcripts w' = <[fname_of (clock w (S (ticks w))) := text]> (transcripts w) /\
    windows w' = windows w ++ [text] /\
    history w' = list_history (transcripts w') /\
    status w' = "Hold to record" /\
    jobs w' = jobs w.
Proof.
  intros Hr Hs Hp Hne Hfin Hm.
  rewrite (stop_record_spec model w h Hr Hs).
  destruct (buffer w) as [|b bs] eqn:Hb; [contradiction|]. rewrite Hfin.
  rewrite transcribe_spec. rewrite at_engine_idle by exact Hp.
  unfold entered, stopped. world_simpl. rewrite lookup_insert_eq.
  change fs with 16000. rewrite Hm.
  eexists. split; [reflexivity|]. unfold stored. world_simpl.
  rewrite lookup_insert_eq. auto 10.
Qed.

Lemma stop_record_transcribes_witness :
  exists w',
    stop_record engine_hello w_one_block = (Returned tt, w') /\
    recording w' = false /\
    recordings w' !! record_path = Some {| rate := 16000; samples := [I16 32767] |} /\
    engine_calls w'
    = engine_calls w_one_block ++
      [{| call_audio := Some {| rate := 16000; samples := [I16 32767] |};
          call_args := make_args (language w_one_block);
          call_depth := S (jobs w_one_block) |}] /\
    transcripts w'
    = <[fname_of (clock w_one_block (S (ticks w_one_block))) := "hello"]>
        (transcripts w_one_block) /\
    windows w' = windows w_one_block ++ ["hello"] /\
    history w' = list_history (transcripts w') /\
    status w' = "Hold to record" /\
    jobs w' = jobs w_one_block.
Proof.
  apply (stop_record_transcribes engine_hello w_one_block 0%nat [I16 32767] "hello").
  - reflexivity.
  - reflexivity.
  - reflexivity.
  - discriminate.
  - vm_compute. reflexivity.
  - reflexivity.
Defined.

(** ** The level meter *)

Lemma binary_round_aux_sign s m e l :
  match binary_round_aux F32.prec F32.emax s m e l with
  | S754_zero s' | S754_infinity s' | S754_finite s' _ _ => s' = s
  | S754_nan => True
  end.
Proof.
  unfold binary_round_aux.
  destruct (shr_fexp F32.prec F32.emax m e l) as [mrs1 e1].
  destruct (shr_fexp F32.prec F32.emax _ e1 loc_Exact) as [mrs2 e2].
  destruct (shr_m mrs2); [reflexivity| |exact I].
  destruct (e2 <=? F32.emax - F32.prec); reflexivity.
Qed.

Lemma not_negative_round m e l :
  not_negative (binary_round_aux F32.prec F32.emax false m e l).
Proof.
  pose proof (binary_round_aux_sign false m e l) as H.
  destruct (binary_round_aux F32.prec F32.emax false m e l); cbn; subst; exact I.
Qed.

Lemma not_negative_sqrt x : not_negative (F32.sqrt x).
Proof.
  unfold F32.sqrt, SFsqrt. destruct x as [s|[]| |[] m e]; try exact I.
  destruct (SFsqrt_core_binary F32.prec F32.emax (Z.pos m) e) as [[mz ez] lz].
  apply not_negative_round.
Qed.

Lemma not_negative_mul_300 x :
  not_negative x -> not_negative (F32.mul x (F32.of_Z 300)).
Proof.
  change (F32.of_Z 300) with (S754_finite false 9830400 (-15)).
  unfold F32.mul, SFmul. destruct x as [s|[]| |[] m e]; intros H; try exact I;
    try contradiction.
  apply not_negative_round.
Qed.

Lemma not_negative_ltb_zero x : not_negative x -> F32.ltb x F32.zero = false.
Proof. destruct x as [s|[]| |[] m e]; intros H; try contradiction; reflexivity. Qed.

(** X11. The level computed for a block never compares above 1.0 nor below
    zero, whatever the samples (it is a NaN when the block is empty). *)
Theorem level_of_in_unit_interval (indata : Block) :
  F32.ltb F32.one (level_of indata) = false /\
  F32.ltb (level_of indata) F32.zero = false.
Proof.
  unfold level_of, F32.py_min.
  pose proof (not_negative_mul_300 (rms indata) (not_negative_sqrt _)) as Hn.
  destruct (F32.ltb F32.one (F32.mul (rms indata) (F32.of_Z 300))) eqn:Hlt.
  - split; reflexivity.
  - split; [exact Hlt|]. apply not_negative_ltb_zero. exact Hn.
Qed.

(** ** More on the finalizer *)

(** X12. The finalizer fails, with the [ValueError] of [np.max], exactly
    when the blocks hold no sample; otherwise the artifact has one stored
    sample for each sample of the recording. *)
Theorem finalize_one_sample_each (buffer : list Block) :
  (finalize buffer = None <-> np_concatenate buffer = []) /\
  (forall pcm, finalize buffer = Some pcm ->
               length pcm = length (np_concatenate buffer)).
Proof.
  unfold finalize. destruct (np_concatenate buffer) as [|x xs] eqn:Hc.
  - split; [split; reflexivity|]. intros pcm H. discriminate.
  - cbn [np_max_abs mbind option_bind]. split; [split; discriminate|].
    intros pcm [= <-]. unfold quantize, normalize. cbn [length]. f_equal.
    rewrite !length_fmap. reflexivity.
Qed.

Lemma trunc_sign s m e z :
  F32.trunc (S754_finite s m e) = Some z -> if s then z <= 0 else 0 <= z.
Proof.
  unfold F32.trunc, F32.ratio.
  destruct (Z.leb_spec 0 e) as [He|He]; intros [= <-].
  - rewrite Z.quot_1_r. assert (0 < 2 ^ e) by (apply Z.pow_pos_nonneg; lia).
    destruct s; nia.
  - assert (Hp : 0 < 2 ^ (- e)) by (apply Z.pow_pos_nonneg; lia).
    destruct s.
    + change (Z.neg m) with (- Z.pos m). rewrite Z.quot_opp_l by lia.
      assert (0 <= Z.pos m ÷ 2 ^ (- e)) by (apply Z.quot_pos; lia). lia.
    + apply Z.quot_pos; lia.
Qed.

(** The peak of finite samples that are not all zero is a positive number,
    and no sample exceeds it. *)
Lemma np_max_abs_positive audio :
  Forall (fun x => F32.finite x = true) audio ->
  Exists (fun x => F32.is_zero x = false) audio ->
  exists mp ep,
    np_max_abs audio = Some (S754_finite false mp ep) /\
    bounded F32.prec F32.emax mp ep = true /\
    Forall (fun x => fle (SFabs x) (S754_finite false mp ep)) audio.
Proof.
  intros Hfin Hnz.
  destruct (np_max_abs audio) as [peak|] eqn:Hpeak;
    [|destruct audio; [inversion Hnz|discriminate]].
  destruct (np_max_abs_spec audio peak Hfin Hpeak) as (Hmag & _ & Hall).
  apply Exists_exists in Hnz as (y & Hy & Hyz).
  pose proof Hall as Hall'. rewrite Forall_forall in Hall'. specialize (Hall' y Hy).
  destruct peak as [[]|[]| |[] mp ep]; simpl in Hmag; try contradiction.
  - destruct y; try discriminate; simpl in Hall'; contradiction.
  - exists mp, ep. auto.
Qed.

Lemma quantize_sample_polarity x mp ep :
  F32.finite x = true -> bounded F32.prec F32.emax mp ep = true ->
  fle (SFabs x) (S754_finite false mp ep) ->
  same_polarity x
    (astype_int16 (F32.mul (F32.div x (S754_finite false mp ep)) (F32.of_Z 32767))).
Proof.
  intros Hx Hp Hle.
  destruct (quantize_sample x false mp ep Hx Hp Hle) as (z & Hz & Hb).
  rewrite (astype_int16_of_trunc _ z Hz Hb).
  revert Hz. rewrite of_Z_32767. unfold F32.div, F32.mul.
  destruct x as [sx|sx| |sx mx ex]; simpl in Hx; try discriminate.
  - intros [= <-]. reflexivity.
  - cbn [SFabs fle] in Hle. cbn [same_polarity].
    destruct (SFdiv_le_one sx mx ex false mp ep Hx Hp Hle)
      as [-> | (m & e & -> & He & Hm)].
    + intros [= <-]. destruct sx; exists 0; split; (reflexivity || lia).
    + rewrite xorb_false_r.
      destruct (SFmul_le_32767 sx m e He Hm) as [-> | (m' & e' & -> & He' & Hm')].
      * intros [= <-]. destruct sx; exists 0; split; (reflexivity || lia).
      * intros Ht. apply trunc_sign in Ht.
        destruct sx; exists z; split; (reflexivity || exact Ht).
Qed.

(** X13. The finalizer never inverts a sample: for finite samples that are
    not all zero, a zero sample is stored as 0, a positive one as a
    non-negative value and a negative one as a non-positive value. *)
Theorem finalize_keeps_polarity (buffer : list Block) (pcm : list int16) :
  Forall (fun x => F32.finite x = true) (np_concatenate buffer) ->
  Exists (fun x => F32.is_zero x = false) (np_concatenate buffer) ->
  finalize buffer = Some pcm ->
  Forall2 same_polarity (np_concatenate buffer) pcm.
Proof.
  intros Hfin Hnz. unfold finalize.
  destruct (np_max_abs_positive _ Hfin Hnz) as (mp & ep & -> & Hb & Hall).
  cbn [mbind option_bind]. intros [= <-].
  unfold quantize, normalize. rewrite <- list_fmap_compose.
  apply Forall2_fmap_r, Forall_Forall2_diag.
  rewrite Forall_forall in Hfin, Hall. apply Forall_forall. intros x Hx.
  apply quantize_sample_polarity; auto.
Qed.

Lemma finalize_keeps_polarity_witness :
  Forall2 same_polarity (np_concatenate [[f0_5; SFopp f0_25]; [F32.zero]])
          [I16 32767; I16 (-16383); I16 0].
Proof.
  apply (finalize_keeps_polarity [[f0_5; SFopp f0_25]; [F32.zero]]).
  - repeat constructor.
  - apply Exists_cons_hd. reflexivity.
  - vm_compute. reflexivity.
Defined.

(** ** Identifiers and instants *)

Lemma dt_compare_eq a b : dt_compare a b = Eq -> a = b.
Proof.
  unfold dt_compare. destruct a as [y m d h mi s], b as [y' m' d' h' mi' s']. cbn.
  destruct (Nat.compare_spec y y'); try discriminate.
  destruct (Nat.compare_spec m m'); try discriminate.
  destruct (Nat.compare_spec d d'); try discriminate.
  destruct (Nat.compare_spec h h'); try discriminate.
  destruct (Nat.compare_spec mi mi'); try discriminate.
  destruct (Nat.compare_spec s s'); try discriminate.
  intros _. congruence.
Qed.

(** X14. On instants a calendar can show, the identifier determines the
    instant, and identifiers sort lexically the way the instants follow each
    other in time. *)
Theorem identifiers_sort_by_time (a b : DateTime) :
  dt_wf a -> dt_wf b ->
  (fname_of a = fname_of b -> a = b) /\
  (id_gt (fname_of b) (fname_of a) <-> dt_compare a b = Lt).
Proof.
  intros Ha Hb. pose proof (fname_of_compare a b Ha Hb) as Hc. split.
  - intros Heq. apply dt_compare_eq. rewrite <- Hc, Heq.
    pose proof (String.compare_antisym (fname_of b) (fname_of b)) as Hs.
    destruct (String.compare (fname_of b) (fname_of b)); [reflexivity|discriminate..].
  - split.
    + intros [Hle Hne]. unfold String.le, String.leb in Hle. rewrite Hc in Hle.
      destruct (dt_compare a b) eqn:Hd; [|reflexivity|contradiction].
      exfalso. apply Hne. symmetry. apply String.compare_eq_iff. exact Hc.
    + apply fname_of_later; assumption.
Qed.

Lemma identifiers_sort_by_time_witness :
  (fname_of t0 = fname_of {| year := 2024; month := 3; day := 7;
                             hour := 10; minute := 0; second := 0 |} ->
   t0 = {| year := 2024; month := 3; day := 7;
           hour := 10; minute := 0; second := 0 |}) /\
  (id_gt (fname_of {| year := 2024; month := 3; day := 7;
                      hour := 10; minute := 0; second := 0 |}) (fname_of t0) <->
   dt_compare t0 {| year := 2024; month := 3; day := 7;
                    hour := 10; minute := 0; second := 0 |} = Lt).
Proof.
  apply (identifiers_sort_by_time t0
           {| year := 2024; month := 3; day := 7;
              hour := 10; minute := 0; second := 0 |}).
  - unfold dt_wf. cbn. lia.
  - unfold dt_wf. cbn. lia.
Defined.

(** ** The todo list *)

Section TodoProperties.

Import Todos.

Variable strip : string -> string.

(** X15. [add_todo] on an entry that is blank once stripped changes
    nothing: no todo is added, nothing is written, the entry field is left
    as it is. *)
Theorem add_todo_blank (st : State) :
  strip (todo_entry st) = "" -> add_todo strip st = st.
Proof.
  intros H. unfold add_todo. rewrite H.
  destruct (decide ("" = "")); [reflexivity|congruence].
Qed.

(** X16. [add_todo] on a non-blank entry appends the stripped text, not
    done, at the end of the list of the date in [today] (a new list if the
    date had none), leaves the other dates alone, writes the whole dict to
    [todos.json], clears the entry field and redraws the list of the day. *)
Theorem add_todo_appends (st : State) :
  strip (todo_entry st) <> "" ->
  todos (add_todo strip st) !! today st
  = Some (todays st ++ [{| text := strip (todo_entry st); done := false |}]) /\
  (forall d, d <> today st -> todos (add_todo strip st) !! d = todos st !! d) /\
  todo_file (add_todo strip st) = Some (todos (add_todo strip st)) /\
  todo_entry (add_todo strip st) = "" /\
  today (add_todo strip st) = today st /\
  todo_list (add_todo strip st)
  = (render <$> todays st) ++ [Todos.render {| text := strip (todo_entry st); done := false |}].
Proof.
  intros H. unfold add_todo.
  destruct (decide (strip (todo_entry st) = "")) as [He|_]; [contradiction|].
  cbn [todos today todo_file todo_entry todo_list refresh_todos save_json].
  split; [apply lookup_insert_eq|]. split.
  - intros d Hd. apply lookup_insert_ne. congruence.
  - split; [reflexivity|]. split; [reflexivity|]. split; [reflexivity|].
    unfold todays at 1. cbn [todos today]. rewrite lookup_insert_eq.
    rewrite fmap_app. reflexivity.
Qed.

End TodoProperties.

Lemma add_todo_blank_witness :
  Todos.add_todo Todos.strip_blanks
    {| Todos.todos := ∅; Todos.today := "2024-03-07"; Todos.todo_entry := "   ";
       Todos.todo_list := []; Todos.todo_file := None |}
  = {| Todos.todos := ∅; Todos.today := "2024-03-07"; Todos.todo_entry := "   ";
       Todos.todo_list := []; Todos.todo_file := None |}.
Proof.
  apply (add_todo_blank Todos.strip_blanks).
  reflexivity.
Defined.

Lemma add_todo_appends_witness :
  Todos.todos (Todos.add_todo Todos.strip_blanks Todos.st_example)
    !! Todos.today Todos.st_example
  = Some (Todos.todays Todos.st_example ++
          [{| Todos.text := Todos.strip_blanks (Todos.todo_entry Todos.st_example);
              Todos.done := false |}]) /\
  (forall d, d <> Todos.today Todos.st_example ->
     Todos.todos (Todos.add_todo Todos.strip_blanks Todos.st_example) !! d
     = Todos.todos Todos.st_example !! d) /\
  Todos.todo_file (Todos.add_todo Todos.strip_blanks Todos.st_example)
  = Some (Todos.todos (Todos.add_todo Todos.strip_blanks Todos.st_example)) /\
  Todos.todo_entry (Todos.add_todo Todos.strip_blanks Todos.st_example) = "" /\
  Todos.today (Todos.add_todo Todos.strip_blanks Todos.st_example)
  = Todos.today Todos.st_example /\
  Todos.todo_list (Todos.add_todo Todos.strip_blanks Todos.st_example)
  = (Todos.render <$> Todos.todays Todos.st_example) ++
    [Todos.render
       {| Todos.text := Todos.strip_blanks (Todos.todo_entry Todos.st_example);
          Todos.done := false |}].
Proof.
  apply (add_todo_appends Todos.strip_blanks Todos.st_example).
  vm_compute. discriminate.
Defined.

Lemma py_index_spec n idx :
  (- Z.of_nat n <= idx < Z.of_nat n ->
   Todos.py_index n idx = Some (Z.to_nat (idx mod Z.of_nat n))) /\
  (~ (- Z.of_nat n <= idx < Z.of_nat n) -> Todos.py_index n idx = None).
Proof.
  unfold Todos.py_index.
  destruct (Z.leb_spec 0 idx), (Z.ltb_spec idx (Z.of_nat n)),
    (Z.leb_spec (- Z.of_nat n) idx), (Z.ltb_spec idx 0); cbn [andb];
    split; intros Hr; try lia; try reflexivity.
  - rewrite Z.mod_small by lia. reflexivity.
  - f_equal. f_equal. apply Z.mod_unique with (-1); lia.
Qed.

(** X17. [toggle_todo] raises [KeyError] exactly when the date in [today]
    has no list, and [IndexError] exactly when it has one and the index is
    outside [-len, len); in particular a click on an empty day raises. *)
Theorem toggle_todo_errors (idx : Z) (st : Todos.State) :
  (Todos.toggle_todo idx st = inl Todos.KeyError
   <-> Todos.todos st !! Todos.today st = None) /\
  (Todos.toggle_todo idx st = inl Todos.IndexError
   <-> exists l, Todos.todos st !! Todos.today st = Some l /\
                 ~ (- Z.of_nat (length l) <= idx < Z.of_nat (length l))).
Proof.
  unfold Todos.toggle_todo.
  destruct (Todos.todos st !! Todos.today st) as [l|] eqn:Hl.
  - destruct (py_index_spec (length l) idx) as [Hin Hout].
    destruct (Todos.py_index (length l) idx) as [i|] eqn:Hi.
    + split; [split; discriminate|]. split; [discriminate|].
      intros (l' & [= <-] & Hr). specialize (Hout Hr). discriminate.
    + split; [split; discriminate|]. split; [|reflexivity].
      intros _. exists l. split; [reflexivity|]. intros Hr.
      specialize (Hin Hr). discriminate.
  - split; [split; reflexivity|]. split; [discriminate|].
    intros (l & Hl' & _). discriminate.
Qed.

(** X18. A successful [toggle_todo] flips the [done] flag of one entry of
    the day, the one Python's indexing denotes (a negative index counts from
    the end), and nothing else: texts, order and length of the list and the
    other dates are unchanged; the dict is written to [todos.json] and the
    list redrawn. *)
Theorem toggle_todo_flips_one (idx : Z) (st : Todos.State) (l : list Todos.Todo) :
  Todos.todos st !! Todos.today st = Some l ->
  - Z.of_nat (length l) <= idx < Z.of_nat (length l) ->
  exists st' l',
    Todos.toggle_todo idx st = inr st' /\
    Todos.todos st' !! Todos.today st = Some l' /\
    length l' = length l /\
    Todos.text <$> l' = Todos.text <$> l /\
    (forall j, l' !! j =
               if decide (j = Z.to_nat (idx mod Z.of_nat (length l)))
               then Todos.flip_done <$> l !! j else l !! j) /\
    (forall d, d <> Todos.today st -> Todos.todos st' !! d = Todos.todos st !! d) /\
    Todos.todo_file st' = Some (Todos.todos st') /\
    Todos.todo_list st' = Todos.render <$> l' /\
    Todos.today st' = Todos.today st /\
    Todos.todo_entry st' = Todos.todo_entry st.
Proof.
  intros Hl Hr. unfold Todos.toggle_todo. rewrite Hl.
  destruct (py_index_spec (length l) idx) as [Hin _]. rewrite (Hin Hr).
  set (i := Z.to_nat (idx mod Z.of_nat (length l))).
  eexists. exists (alter Todos.flip_done i l). split; [reflexivity|].
  cbn [Todos.todos Todos.today Todos.todo_file Todos.todo_entry Todos.todo_list
       Todos.refresh_todos Todos.save_json].
  split; [apply lookup_insert_eq|]. split; [apply length_alter|]. split.
  - apply list_eq. intros j. rewrite !list_lookup_fmap.
    destruct (decide (i = j)) as [<-|Hne].
    + rewrite list_lookup_alter_eq. destruct (l !! i); reflexivity.
    + rewrite list_lookup_alter_ne by exact Hne. reflexivity.
  - split.
    + intros j. destruct (decide (j = i)) as [->|Hne].
      * apply list_lookup_alter_eq.
      * apply list_lookup_alter_ne. congruence.
    + split; [intros d Hd; apply lookup_insert_ne; congruence|].
      split; [reflexivity|]. split; [|auto].
      unfold Todos.todays. cbn [Todos.todos Todos.today Todos.save_json].
      rewrite lookup_insert_eq. reflexivity.
Qed.

Lemma toggle_todo_flips_one_witness :
  exists st' l',
    Todos.toggle_todo (-1) Todos.st_example = inr st' /\
    Todos.todos st' !! Todos.today Todos.st_example = Some l' /\
    length l' = length [{| Todos.text := "call Ada"; Todos.done := false |};
                        {| Todos.text := "buy milk"; Todos.done := true |}] /\
    Todos.text <$> l'
    = Todos.text <$> [{| Todos.text := "call Ada"; Todos.done := false |};
                      {| Todos.text := "buy milk"; Todos.done := true |}] /\
    (forall j, l' !! j =
               if decide (j = Z.to_nat ((-1) mod Z.of_nat (length
                    [{| Todos.text := "call Ada"; Todos.done := false |};
                     {| Todos.text := "buy milk"; Todos.done := true |}])))
               then Todos.flip_done <$>
                    [{| Todos.text := "call Ada"; Todos.done := false |};
                     {| Todos.text := "buy milk"; Todos.done := true |}] !! j
               else [{| Todos.text := "call Ada"; Todos.done := false |};
                     {| Todos.text := "buy milk"; Todos.done := true |}] !! j) /\
    (forall d, d <> Todos.today Todos.st_example ->
               Todos.todos st' !! d = Todos.todos Todos.st_example !! d) /\
    Todos.todo_file st' = Some (Todos.todos st') /\
    Todos.todo_list st' = Todos.render <$> l' /\
    Todos.today st' = Todos.today Todos.st_example /\
    Todos.todo_entry st' = Todos.todo_entry Todos.st_example.
Proof.
  apply (toggle_todo_flips_one (-1) Todos.st_example
           [{| Todos.text := "call Ada"; Todos.done := false |};
            {| Todos.text := "buy milk"; Todos.done := true |}]).
  - vm_compute. reflexivity.
  - cbn. lia.
Defined.

Lemma flip_done_twice t : Todos.flip_done (Todos.flip_done t) = t.
Proof. destruct t as [x []]; reflexivity. Qed.

Lemma toggle_todo_ok idx st l i :
  Todos.todos st !! Todos.today st = Some l ->
  Todos.py_index (length l) idx = Some i ->
  Todos.toggle_todo idx st =
  inr {| Todos.todos := <[Todos.today st := alter Todos.flip_done i l]> (Todos.todos st);
         Todos.today := Todos.today st;
         Todos.todo_entry := Todos.todo_entry st;
         Todos.todo_list := Todos.render <$> alter Todos.flip_done i l;
         Todos.todo_file :=
           Some (<[Todos.today st := alter Todos.flip_done i l]> (Todos.todos st)) |}.
Proof.
  intros Hl Hi. unfold Todos.toggle_todo. rewrite Hl, Hi.
  unfold Todos.refresh_todos, Todos.save_json, Todos.todays.
  cbn [Todos.todos Todos.today Todos.todo_file Todos.todo_entry Todos.todo_list].
  rewrite lookup_insert_eq. reflexivity.
Qed.

(** X19. Toggling the same entry twice restores the dict: the todos are
    what they were, [todos.json] holds them, and the list shows them. *)
Theorem toggle_todo_twice (idx : Z) (st : Todos.State) (l : list Todos.Todo) :
  Todos.todos st !! Todos.today st = Some l ->
  - Z.of_nat (length l) <= idx < Z.of_nat (length l) ->
  exists st1 st2,
    Todos.toggle_todo idx st = inr st1 /\
    Todos.toggle_todo idx st1 = inr st2 /\
    Todos.todos st2 = Todos.todos st /\
    Todos.todo_file st2 = Some (Todos.todos st) /\
    Todos.todo_list st2 = Todos.render <$> l.
Proof.
  intros Hl Hr. destruct (py_index_spec (length l) idx) as [Hin _].
  specialize (Hin Hr). set (i := Z.to_nat (idx mod Z.of_nat (length l))) in *.
  assert (Hl2 : alter Todos.flip_done i (alter Todos.flip_done i l) = l).
  { rewrite list_alter_alter_eq.
    apply list_alter_id. intros x. apply flip_done_twice. }
  assert (Hback : <[Todos.today st := l]>
                    (<[Todos.today st := alter Todos.flip_done i l]> (Todos.todos st))
                  = Todos.todos st).
  { rewrite insert_insert_eq. apply insert_id. exact Hl. }
  eexists. eexists. split; [apply (toggle_todo_ok idx st l i Hl Hin)|].
  split.
  - apply (toggle_todo_ok idx _ (alter Todos.flip_done i l) i).
    + cbn [Todos.todos Todos.today]. apply lookup_insert_eq.
    + rewrite length_alter. exact Hin.
  - cbn [Todos.todos Todos.today Todos.todo_file Todos.todo_list].
    rewrite Hl2, Hback. auto.
Qed.

Lemma toggle_todo_twice_witness :
  exists st1 st2,
    Todos.toggle_todo 0 Todos.st_example = inr st1 /\
    Todos.toggle_todo 0 st1 = inr st2 /\
    Todos.todos st2 = Todos.todos Todos.st_example /\
    Todos.todo_file st2 = Some (Todos.todos Todos.st_example) /\
    Todos.todo_list st2
    = Todos.render <$> [{| Todos.text := "call Ada"; Todos.done := false |};
                        {| Todos.text := "buy milk"; Todos.done := true |}].
Proof.
  apply (toggle_todo_twice 0 Todos.st_example
           [{| Todos.text := "call Ada"; Todos.done := false |};
            {| Todos.text := "buy milk"; Todos.done := true |}]).
  - vm_compute. reflexivity.
  - cbn. lia.
Defined.

(** X20. The listbox shows the todos of a day without ambiguity: two lists
    of entries drawn as the same lines are the same list, texts and flags. *)
Theorem rendered_list_determines_todos (l1 l2 : list Todos.Todo) :
  Todos.render <$> l1 = Todos.render <$> l2 -> l1 = l2.
Proof.
  assert (Hinj : forall t1 t2, Todos.render t1 = Todos.render t2 -> t1 = t2).
  { intros [x1 d1] [x2 d2] H. unfold Todos.render in H.
    cbn [Todos.text Todos.done] in H.
    destruct d1, d2; cbv [String.append] in H;
      first [discriminate H | injection H as ->; reflexivity]. }
  revert l2. induction l1 as [|t1 l1 IH]; intros [|t2 l2] H; try discriminate H;
    [reflexivity|].
  rewrite !fmap_cons in H. injection H as Ht Hl.
  f_equal; [apply Hinj; exact Ht|apply IH; exact Hl].
Qed.

Lemma rendered_list_determines_todos_witness :
  [{| Todos.text := "call Ada"; Todos.done := false |}]
  = [{| Todos.text := "call Ada"; Todos.done := false |}].
Proof.
  apply (rendered_list_determines_todos
           [{| Todos.text := "call Ada"; Todos.done := false |}]
           [{| Todos.text := "call Ada"; Todos.done := false |}]).
  reflexivity.
Defined.

(** X21. [stop_record] does not clear the buffer: with nothing pending, the
    blocks of the recording are still in it when the call has ended,
    however it ended; only the next [start_record] discards them. *)
Theorem stop_record_keeps_buffer model (w : World) :
  pending w = [] -> buffer (stop_record model w).2 = buffer w.
Proof.
  intros Hp. unfold stop_record. rewrite stop_record_in_shape.
  destruct (recording w); [|reflexivity].
  destruct (stream w) as [h|]; [|reflexivity].
  destruct (buffer w) as [|b bs] eqn:Hb; [unfold stopped; world_simpl; exact Hb|].
  destruct (finalize (b :: bs)) as [audio|];
    [|unfold stopped; world_simpl; exact Hb].
  rewrite transcribe_in_shape, root_update_idle by exact Hp.
  destruct (model _ _); unfold stored, failed, entered, stopped; world_simpl;
    exact Hb.
Qed.

Lemma stop_record_keeps_buffer_witness :
  buffer (stop_record engine_hello w_one_block).2 = buffer w_one_block.
Proof.
  apply (stop_record_keeps_buffer engine_hello w_one_block).
  reflexivity.
Defined.
